(** * Interactive tic-tac-toe: the game core of [App.js]

    A shallow embedding of the game logic of the React component [App]
    ([calculateWinner], [findBestMove], [handleCellClick], [jumpTo],
    [handleReset], [handleModeChange], [doAIMove], [getOpenAIMove]) together
    with the properties of the specification that concern it.  The component
    exists in two versions, with and without the OpenAI opponent; the
    functions they share are the same text, and the version with the
    opponent is the one embedded.

    JavaScript numbers that serve as indices are integers of [Z]; arrays are
    lists; [null] is [None]; the strings ["X"] and ["O"] are the two
    constructors of [Player]. *)

From Stdlib Require Import ZArith List Ascii String Bool Lia DecimalString.
From stdpp Require Import base option list.
Import ListNotations.

Local Open Scope Z_scope.

(** ** Board *)

Inductive Player : Type := X | O.

#[global] Instance Player_eq_dec : EqDecision Player.
Proof. solve_decision. Defined.

(** A cell holds [null], ["X"] or ["O"]. *)
Definition Cell : Type := option Player.

Definition Board : Type := list (list Cell).

(** A coordinate pair [[r, c]] and a winning line [[[a,b],[c,d],[e,f]]]. *)
Definition Coord : Type := (Z * Z)%type.
Definition Line : Type := (Coord * Coord * Coord)%type.

(** [arr[i]] for an integer [i]: [None] is JavaScript's [undefined]. *)
Definition idx {A : Type} (arr : list A) (i : Z) : option A :=
  if decide (0 <= i) then arr !! Z.to_nat i else None.

(** [board[row][col]].  The outer [None] is the [TypeError] raised when
    [board[row]] is [undefined]; a column that is out of range reads
    [undefined], which is as falsy as [null] and is returned as [None]. *)
Definition readCell (board : Board) (row col : Z) : option Cell :=
  match idx board row with
  | None => None
  | Some r => Some (default None (idx r col))
  end.

(** [board[r][c]] where the read cannot fail (every board of the program is
    3x3 and the indices are literals of [0..2]). *)
Definition cellAt (board : Board) (r c : Z) : Cell :=
  default None (readCell board r c).

(** Truthiness of a cell: a mark is truthy, [null] is not. *)
Definition truthy (c : Cell) : bool :=
  match c with Some _ => true | None => false end.

(** [Array(3).fill(null).map(() => Array(3).fill(null))] *)
Definition createEmptyBoard : Board :=
  replicate 3 (replicate 3 None).

(** The shape every board of the program has. *)
Definition wf_board (board : Board) : Prop :=
  length board = 3%nat /\ Forall (fun r => length r = 3%nat) board.

(** ** calculateWinner *)

Definition rows : list Line :=
  [ ((0,0), (0,1), (0,2));
    ((1,0), (1,1), (1,2));
    ((2,0), (2,1), (2,2)) ].

Definition columns : list Line :=
  [ ((0,0), (1,0), (2,0));
    ((0,1), (1,1), (2,1));
    ((0,2), (1,2), (2,2)) ].

Definition diagonals : list Line :=
  [ ((0,0), (1,1), (2,2));
    ((0,2), (1,1), (2,0)) ].

Definition lines : list Line := rows ++ columns ++ diagonals.

(** [{winner, line}] or [{winner: null, line: null, draw: true}]. *)
Inductive WinnerInfo : Type :=
| Winner (winner : Player) (line : Line)
| Draw.

(** The [for (let line of lines)] loop with its early [return]. *)
Fixpoint scanLines (board : Board) (ls : list Line) : option WinnerInfo :=
  match ls with
  | [] => None
  | line :: rest =>
      let '((a, b), (c, d), (e, f)) := line in
      match cellAt board a b with
      | Some p =>
          if bool_decide (cellAt board a b = cellAt board c d)
             && bool_decide (cellAt board a b = cellAt board e f)
          then Some (Winner p line)
          else scanLines board rest
      | None => scanLines board rest
      end
  end.

(** [None] is the [null] the function returns while the game is in
    progress. *)
Definition calculateWinner (board : Board) : option WinnerInfo :=
  match scanLines board lines with
  | Some w => Some w
  | None =>
      if forallb (fun row => forallb truthy row) board
      then Some Draw
      else None
  end.

(** ** findBestMove *)

(** The inner loop [for (let j=0;j<3;j++)] over the remaining columns. *)
Fixpoint scanRow (board : Board) (i : Z) (js : list Z) : option Coord :=
  match js with
  | [] => None
  | j :: js' =>
      if negb (truthy (cellAt board i j)) then Some (i, j)
      else scanRow board i js'
  end.

(** The outer loop [for (let i=0;i<3;i++)] over the remaining rows. *)
Fixpoint scanRows (board : Board) (rs : list Z) : option Coord :=
  match rs with
  | [] => None
  | i :: rs' =>
      match scanRow board i [0; 1; 2] with
      | Some m => Some m
      | None => scanRows board rs'
      end
  end.

(** [None] is the [null] returned when no cell is free. *)
Definition findBestMove (board : Board) : option Coord :=
  scanRows board [0; 1; 2].

(** ** Component state *)

Inductive Mode : Type := pvp | pvc.

(** A history entry [{board, move, player}]. *)
Record Entry : Type := mkEntry {
  entry_board : Board;
  entry_move : option Coord;
  entry_player : option Player
}.

(** The state variables of [App] ([isMobile] belongs to the layout). *)
Record State : Type := mkState {
  board : Board;
  isXNext : bool;
  history : list Entry;
  step : Z;
  mode : Mode;
  status : string;
  winningLine : option Line;
  error : string;
  aiThinking : bool
}.

Definition initialEntry : Entry :=
  {| entry_board := createEmptyBoard; entry_move := None;
     entry_player := Some X |}.

(** The values given to [useState] on the first render. *)
Definition initialState : State :=
  {| board := createEmptyBoard; isXNext := true;
     history := [initialEntry]; step := 0; mode := pvp;
     status := EmptyString; winningLine := None; error := EmptyString;
     aiThinking := false |}.

(** ** Event handlers as state transformers

    A handler runs to completion or raises; the state updates it has queued
    before raising are kept, as React keeps them.  A handler reads the
    state variables of the render it belongs to ([get] at its start) and no
    handler reads a variable after setting it, so the updates can be
    threaded through the state one after the other. *)

Inductive Completion (A : Type) : Type :=
| Normal (a : A)
| Throw.
Arguments Normal {A} a.
Arguments Throw {A}.

(** [findBestMove(board)] as a call, with its completion.  The function has
    no [throw]; a read [board[i][j]] raises when [board[i]] is missing, and
    [Normal None] is [return null].  In the inner loop [Normal None] says
    that the row has been scanned without a [return]. *)
Fixpoint scanRowCall (board : Board) (i : Z) (js : list Z)
  : Completion (option Coord) :=
  match js with
  | [] => Normal None
  | j :: js' =>
      match readCell board i j with
      | None => Throw
      | Some cell =>
          if negb (truthy cell) then Normal (Some (i, j))
          else scanRowCall board i js'
      end
  end.

Fixpoint scanRowsCall (board : Board) (rs : list Z) : Completion (option Coord) :=
  match rs with
  | [] => Normal None
  | i :: rs' =>
      match scanRowCall board i [0; 1; 2] with
      | Normal None => scanRowsCall board rs'
      | done => done
      end
  end.

Definition callFindBestMove (board : Board) : Completion (option Coord) :=
  scanRowsCall board [0; 1; 2].

Definition Handler (A : Type) : Type := State -> Completion A * State.

Definition ret {A : Type} (a : A) : Handler A := fun s => (Normal a, s).

Definition throw {A : Type} : Handler A := fun s => (Throw, s).

Definition bind {A B : Type} (m : Handler A) (k : A -> Handler B) : Handler B :=
  fun s =>
    match m s with
    | (Normal a, s') => k a s'
    | (Throw, s') => (Throw, s')
    end.

(** [try { body } catch (e) { handler }] *)
Definition tryCatch {A : Type} (body handler : Handler A) : Handler A :=
  fun s =>
    match body s with
    | (Normal a, s') => (Normal a, s')
    | (Throw, s') => handler s'
    end.

Definition get : Handler State := fun s => (Normal s, s).

Declare Scope handler_scope.
Delimit Scope handler_scope with handler.
Notation "x <- m ;; k" := (bind m (fun x => k))
  (at level 100, m at next level, right associativity) : handler_scope.
Notation "m ;; k" := (bind m (fun _ => k))
  (at level 100, right associativity) : handler_scope.

(** The result of a read that raises on a missing value. *)
Definition orThrow {A : Type} (o : option A) : Handler A :=
  match o with
  | Some a => ret a
  | None => throw
  end.

Definition setBoard (b : Board) : Handler unit := fun s =>
  (Normal tt,
   mkState b (isXNext s) (history s) (step s) (mode s) (status s)
           (winningLine s) (error s) (aiThinking s)).

Definition setIsXNext (x : bool) : Handler unit := fun s =>
  (Normal tt,
   mkState (board s) x (history s) (step s) (mode s) (status s)
           (winningLine s) (error s) (aiThinking s)).

Definition setHistory (h : list Entry) : Handler unit := fun s =>
  (Normal tt,
   mkState (board s) (isXNext s) h (step s) (mode s) (status s)
           (winningLine s) (error s) (aiThinking s)).

Definition setStep (k : Z) : Handler unit := fun s =>
  (Normal tt,
   mkState (board s) (isXNext s) (history s) k (mode s) (status s)
           (winningLine s) (error s) (aiThinking s)).

Definition setMode (m : Mode) : Handler unit := fun s =>
  (Normal tt,
   mkState (board s) (isXNext s) (history s) (step s) m (status s)
           (winningLine s) (error s) (aiThinking s)).

Definition setStatus (t : string) : Handler unit := fun s =>
  (Normal tt,
   mkState (board s) (isXNext s) (history s) (step s) (mode s) t
           (winningLine s) (error s) (aiThinking s)).

Definition setWinningLine (l : option Line) : Handler unit := fun s =>
  (Normal tt,
   mkState (board s) (isXNext s) (history s) (step s) (mode s) (status s)
           l (error s) (aiThinking s)).

Definition setError (t : string) : Handler unit := fun s =>
  (Normal tt,
   mkState (board s) (isXNext s) (history s) (step s) (mode s) (status s)
           (winningLine s) t (aiThinking s)).

Definition setAiThinking (b : bool) : Handler unit := fun s =>
  (Normal tt,
   mkState (board s) (isXNext s) (history s) (step s) (mode s) (status s)
           (winningLine s) (error s) b).

(** [arr.slice(0, e)]: a negative [e] counts from the end, and the result
    is clamped to the array. *)
Definition slice0 {A : Type} (e : Z) (arr : list A) : list A :=
  let len := Z.of_nat (length arr) in
  let k := if decide (e < 0) then Z.max (len + e) 0 else Z.min e len in
  take (Z.to_nat k) arr.

Definition isPvc (m : Mode) : bool :=
  match m with pvc => true | pvp => false end.

Definition playerOf (xNext : bool) : Player := if xNext then X else O.

(** [board.map((r, i) => r.map((cell, j) =>
       (i === row && j === col ? player : cell)))] *)
Definition placeMark (b : Board) (row col : Z) (player : Player) : Board :=
  imap (fun (i : nat) (r : list Cell) =>
          imap (fun (j : nat) (cell : Cell) =>
                  if bool_decide (Z.of_nat i = row) && bool_decide (Z.of_nat j = col)
                  then Some player else cell) r) b.

Local Open Scope handler_scope.

Definition handleCellClick (row col : Z) (computerMove : bool) : Handler unit :=
  s <- get ;;
  if bool_decide (is_Some (calculateWinner (board s))) then ret tt else
  cell <- orThrow (readCell (board s) row col) ;;
  if truthy cell
     || (isPvc (mode s) && negb (isXNext s) && negb computerMove)
  then ret tt
  else
    let player := playerOf (isXNext s) in
    let nextBoard := placeMark (board s) row col player in
    let nextHistory :=
      slice0 (step s + 1) (history s)
        ++ [ {| entry_board := nextBoard; entry_move := Some (row, col);
                entry_player := Some player |} ] in
    setBoard nextBoard ;;
    setHistory nextHistory ;;
    setStep (Z.of_nat (length nextHistory) - 1) ;;
    setIsXNext (negb (isXNext s)).

Definition jumpTo (stepIdx : Z) : Handler unit :=
  s <- get ;;
  setStep stepIdx ;;
  entry <- orThrow (idx (history s) stepIdx) ;;
  setBoard (entry_board entry) ;;
  setIsXNext (bool_decide (Z.rem stepIdx 2 = 0)) ;;
  setWinningLine None.

Definition handleReset : Handler unit :=
  setBoard createEmptyBoard ;;
  setIsXNext true ;;
  setHistory [initialEntry] ;;
  setStep 0 ;;
  setStatus "Next: X" ;;
  setWinningLine None ;;
  setError EmptyString ;;
  setAiThinking false.

Definition handleModeChange (value : Mode) : Handler unit :=
  setMode value ;;
  handleReset.

(** What [await getOpenAIMove(board)] delivers: the promise rejects or
    resolves to [null] or to an array, here an array of integers. *)
Inductive Awaited (A : Type) : Type :=
| Rejected
| Resolved (a : A).
Arguments Rejected {A}.
Arguments Resolved {A} a.

(** [let fallback = findBestMove(board);
     if (fallback) handleCellClick(fallback[0], fallback[1], true);] *)
Definition playFallback : Handler unit :=
  s <- get ;;
  match findBestMove (board s) with
  | Some (i, j) => handleCellClick i j true
  | None => ret tt
  end.

(** [doAIMove]; [openai] tells whether the client is configured. *)
Definition doAIMove (openai : bool) (answer : Awaited (option (list Z)))
  : Handler unit :=
  s <- get ;;
  setAiThinking true ;;
  setError EmptyString ;;
  (if openai then
     tryCatch
       (match answer with
        | Rejected => throw
        | Resolved None => playFallback
        | Resolved (Some [r; c]) =>
            cell <- orThrow (readCell (board s) r c) ;;
            if truthy cell then playFallback
            else handleCellClick r c true
        | Resolved (Some _) => playFallback
        end)
       (setError "AI move failed, using fallback." ;;
        playFallback)
   else
     m <- orThrow (findBestMove (board s)) ;;
     handleCellClick (fst m) (snd m) true) ;;
  setAiThinking false.

(** The guard of the effect that starts the computer's turn. *)
Definition aiTurn (s : State) : bool :=
  isPvc (mode s)
  && negb (bool_decide (is_Some (calculateWinner (board s))))
  && negb (isXNext s).

Local Close Scope handler_scope.

(** The state a handler leaves behind. *)
Definition exec {A : Type} (h : Handler A) (s : State) : State := snd (h s).

(** Whether a handler raised. *)
Definition raised {A : Type} (h : Handler A) (s : State) : bool :=
  match fst (h s) with Throw => true | Normal _ => false end.

Definition playerName (p : Player) : string :=
  match p with X => "X" | O => "O" end.

(** The effect that re-derives the status line and the highlighted line
    after a render. *)
Definition winnerEffect : Handler unit :=
  (s <- get ;;
   match calculateWinner (board s) with
   | Some (Winner w l) =>
       setStatus ("Winner: " ++ playerName w) ;;
       setWinningLine (Some l)
   | Some Draw =>
       setStatus "Draw!" ;;
       setWinningLine None
   | None =>
       setStatus ("Next: " ++ playerName (playerOf (isXNext s))) ;;
       setWinningLine None
   end)%handler.

(** ** Sessions

    What can happen to the component: a click on a cell, a click on an entry
    of the move list, the reset button, the mode selector, the computer's
    turn, and the status effect. *)
Inductive Event : Type :=
| Click (row col : Z) (computerMove : bool)
| Jump (stepIdx : Z)
| Reset
| ModeChange (value : Mode)
| AIMove (openai : bool) (answer : Awaited (option (list Z)))
| StatusEffect.

Definition handle (e : Event) : Handler unit :=
  match e with
  | Click row col computerMove => handleCellClick row col computerMove
  | Jump stepIdx => jumpTo stepIdx
  | Reset => handleReset
  | ModeChange value => handleModeChange value
  | AIMove openai answer => doAIMove openai answer
  | StatusEffect => winnerEffect
  end.

(** The state after a sequence of events, whether or not a handler raised. *)
Definition run (evs : list Event) (s : State) : State :=
  fold_left (fun s e => exec (handle e) s) evs s.

Definition reachable (s : State) : Prop :=
  exists evs, s = run evs initialState.

(** Jumps are to indices that are not negative. *)
Definition nonNegativeJump (e : Event) : Prop :=
  match e with
  | Jump stepIdx => 0 <= stepIdx
  | _ => True
  end.

(** ** The suggestion adapter: [getOpenAIMove]

    A JavaScript string is a list of characters; the characters of the
    model are the code units below 256. *)

Definition Text : Type := list ascii.

Definition text (s : string) : Text := list_ascii_of_string s.

Definition code (c : ascii) : N := N_of_ascii c.

(** The double quote. *)
Definition dquote : ascii :=
  Ascii false true false false false true false false.

(** The backslash. *)
Definition backslash : ascii :=
  Ascii false false true true true false true false.

(** [\d] *)
Definition isDigit (c : ascii) : bool :=
  (48 <=? code c)%N && (code c <=? 57)%N.

(** The blank of the pattern [ *]. *)
Definition isSpace (c : ascii) : bool := Ascii.eqb c " ".

(** White space for [trim]: tab, line feed, vertical tab, form feed,
    carriage return, space and no-break space. *)
Definition isTrimSpace (c : ascii) : bool :=
  ((9 <=? code c)%N && (code c <=? 13)%N)
  || (code c =? 32)%N || (code c =? 160)%N.

(** White space of the JSON grammar: tab, line feed, carriage return and
    space. *)
Definition isJsonSpace (c : ascii) : bool :=
  (code c =? 9)%N || (code c =? 10)%N || (code c =? 13)%N || (code c =? 32)%N.

(** The longest prefix whose characters satisfy [p], and the rest. *)
Fixpoint span (p : ascii -> bool) (s : Text) : Text * Text :=
  match s with
  | [] => ([], [])
  | c :: t =>
      if p c then let '(a, r) := span p t in (c :: a, r)
      else ([], s)
  end.

Definition skip (p : ascii -> bool) (s : Text) : Text := snd (span p s).

(** [s.trim()] *)
Definition trim (s : Text) : Text :=
  rev (skip isTrimSpace (rev (skip isTrimSpace s))).

(** [s.startsWith("[")] *)
Definition startsWithBracket (s : Text) : bool :=
  match s with
  | c :: _ => Ascii.eqb c "["
  | [] => false
  end.

(** *** The regular expression [/\[ *\d+ *, *\d+ *\]/]

    The character classes that follow one another in the pattern are
    disjoint, so each greedy quantifier can only stop where it does: a match
    anchored at a position is found without backtracking. *)

(** One literal character. *)
Definition expect (c : ascii) (s : Text) : option Text :=
  match s with
  | c' :: t => if Ascii.eqb c' c then Some t else None
  | [] => None
  end.

(** [\d+]: the digits read and the rest. *)
Definition digits1 (s : Text) : option (Text * Text) :=
  match span isDigit s with
  | ([], _) => None
  | (d, r) => Some (d, r)
  end.

(** The pattern anchored at the start of [s]: the matched text. *)
Definition matchAt (s : Text) : option Text :=
  s1 ← expect "[" s;
  let '(sp1, s2) := span isSpace s1 in
  '(d1, s3) ← digits1 s2;
  let '(sp2, s4) := span isSpace s3 in
  s5 ← expect "," s4;
  let '(sp3, s6) := span isSpace s5 in
  '(d2, s7) ← digits1 s6;
  let '(sp4, s8) := span isSpace s7 in
  _ ← expect "]" s8;
  Some ("["%char :: sp1 ++ d1 ++ sp2 ++ ","%char :: sp3 ++ d2 ++ sp4 ++ ["]"%char]).

(** [raw.match(re)]: the match at the leftmost position that has one;
    [None] is [null].  The result is [match[0]]. *)
Fixpoint search (s : Text) : option Text :=
  match matchAt s with
  | Some m => Some m
  | None =>
      match s with
      | [] => None
      | _ :: t => search t
      end
  end.

(** *** [JSON.parse] *)

(** A JavaScript number as [JSON.parse] makes it from a literal.  The
    value is a double: [Exact n] is the integer [n], which a double holds
    when its magnitude is at most 2^53; [Nearest m e] is the double that
    JavaScript rounds [m * 10 ^ e] to, a number that is no integer or one
    past 2^53 (possibly an infinity), which the model does not compute.
    The sign of a zero is not kept. *)
Inductive JSNumber : Type :=
| Exact (n : Z)
| Nearest (mantissa exponent : Z).

(** The number that the literal [m * 10 ^ e] denotes. *)
Definition numberOf (m e : Z) : JSNumber :=
  if 0 <=? e then
    let n := m * 10 ^ e in
    if Z.abs n <=? 2 ^ 53 then Exact n else Nearest m e
  else
    let d := 10 ^ (- e) in
    if (m mod d =? 0) && (Z.abs (m / d) <=? 2 ^ 53) then Exact (m / d)
    else Nearest m e.

(** Parsed JSON text; a string is its list of code units, an object its
    members in the order of the text. *)
#[warnings="-register-all"] Inductive JSON : Type :=
| JNull
| JBool (b : bool)
| JNumber (n : JSNumber)
| JString (s : list N)
| JArray (elements : list JSON)
| JObject (members : list (list N * JSON)).

Definition digitValue (c : ascii) : Z := Z.of_N (code c) - 48.

(** The value of a string of decimal digits. *)
Definition digitsValue (d : Text) : Z :=
  fold_left (fun acc c => 10 * acc + digitValue c) d 0.

(** [. digits], when present. *)
Definition parseFraction (s : Text) : option (Text * Text) :=
  match s with
  | c :: t =>
      if Ascii.eqb c "." then digits1 t else Some ([], s)
  | [] => Some ([], s)
  end.

(** [e] or [E], a sign and digits, when present: the exponent. *)
Definition parseExponent (s : Text) : option (Z * Text) :=
  match s with
  | c :: t =>
      if Ascii.eqb c "e" || Ascii.eqb c "E" then
        match t with
        | sg :: t' =>
            if Ascii.eqb sg "-" then
              '(d, r) ← digits1 t'; Some (- digitsValue d, r)
            else if Ascii.eqb sg "+" then
              '(d, r) ← digits1 t'; Some (digitsValue d, r)
            else
              '(d, r) ← digits1 t; Some (digitsValue d, r)
        | [] => None
        end
      else Some (0, s)
  | [] => Some (0, s)
  end.

(** The integer part: a single [0], or digits that start with [1..9]. *)
Definition parseInt (s : Text) : option (Text * Text) :=
  match s with
  | c :: t =>
      if Ascii.eqb c "0" then Some ([c], t)
      else digits1 s
  | [] => None
  end.

(** A number literal: sign, integer part, fraction and exponent; its
    digits without the point, scaled by the exponent less the length of the
    fraction. *)
Definition parseNumber (s : Text) : option (JSNumber * Text) :=
  let '(sign, s1) :=
    match s with
    | c :: t => if Ascii.eqb c "-" then (-1, t) else (1, s)
    | [] => (1, s)
    end in
  '(ip, s2) ← parseInt s1;
  '(fp, s3) ← parseFraction s2;
  '(ex, s4) ← parseExponent s3;
  Some (numberOf (sign * digitsValue (ip ++ fp)) (ex - Z.of_nat (length fp)), s4).

Definition hexValue (c : ascii) : option N :=
  let n := code c in
  if isDigit c then Some (n - 48)%N
  else if (97 <=? n)%N && (n <=? 102)%N then Some (n - 87)%N
  else if (65 <=? n)%N && (n <=? 70)%N then Some (n - 55)%N
  else None.

(** The code unit of a two-character escape. *)
Definition simpleEscape (c : ascii) : option N :=
  if Ascii.eqb c dquote then Some 34%N
  else if Ascii.eqb c backslash then Some 92%N
  else if Ascii.eqb c "/" then Some 47%N
  else if Ascii.eqb c "b" then Some 8%N
  else if Ascii.eqb c "f" then Some 12%N
  else if Ascii.eqb c "n" then Some 10%N
  else if Ascii.eqb c "r" then Some 13%N
  else if Ascii.eqb c "t" then Some 9%N
  else None.

(** The characters of a string up to the closing quote. *)
Fixpoint parseChars (s : Text) : option (list N * Text) :=
  match s with
  | [] => None
  | c :: t =>
      if Ascii.eqb c dquote then Some ([], t)
      else if Ascii.eqb c backslash then
        match t with
        | e :: t1 =>
            match simpleEscape e with
            | Some u =>
                match parseChars t1 with
                | Some (cs, r) => Some (u :: cs, r)
                | None => None
                end
            | None =>
                if Ascii.eqb e "u" then
                  match t1 with
                  | h1 :: h2 :: h3 :: h4 :: t2 =>
                      match hexValue h1, hexValue h2, hexValue h3, hexValue h4 with
                      | Some a, Some b, Some c', Some d =>
                          match parseChars t2 with
                          | Some (cs, r) =>
                              Some ((((a * 16 + b) * 16 + c') * 16 + d)%N :: cs, r)
                          | None => None
                          end
                      | _, _, _, _ => None
                      end
                  | _ => None
                  end
                else None
            end
        | [] => None
        end
      else if (code c <? 32)%N then None
      else
        match parseChars t with
        | Some (cs, r) => Some (code c :: cs, r)
        | None => None
        end
  end.

(** [s] without the prefix [p]. *)
Fixpoint stripPrefix (p s : Text) : option Text :=
  match p with
  | [] => Some s
  | c :: p' => s' ← expect c s; stripPrefix p' s'
  end.

(** A value, the elements of an array after its first bracket, the
    members of an object after its brace.  The first argument bounds the
    number of nested calls. *)
Fixpoint parseValue (n : nat) (s : Text) {struct n} : option (JSON * Text) :=
  match n with
  | 0%nat => None
  | S n' =>
      match s with
      | [] => None
      | c :: r =>
          if Ascii.eqb c "[" then
            match skip isJsonSpace r with
            | c1 :: r1 =>
                if Ascii.eqb c1 "]" then Some (JArray [], r1)
                else '(vs, r2) ← parseElements n' (c1 :: r1); Some (JArray vs, r2)
            | [] => None
            end
          else if Ascii.eqb c "{" then
            match skip isJsonSpace r with
            | c1 :: r1 =>
                if Ascii.eqb c1 "}" then Some (JObject [], r1)
                else '(ms, r2) ← parseMembers n' (c1 :: r1); Some (JObject ms, r2)
            | [] => None
            end
          else if Ascii.eqb c dquote then
            '(cs, r1) ← parseChars r; Some (JString cs, r1)
          else if Ascii.eqb c "t" then
            r1 ← stripPrefix (text "rue") r; Some (JBool true, r1)
          else if Ascii.eqb c "f" then
            r1 ← stripPrefix (text "alse") r; Some (JBool false, r1)
          else if Ascii.eqb c "n" then
            r1 ← stripPrefix (text "ull") r; Some (JNull, r1)
          else
            '(x, r1) ← parseNumber s; Some (JNumber x, r1)
      end
  end
with parseElements (n : nat) (s : Text) {struct n} : option (list JSON * Text) :=
  match n with
  | 0%nat => None
  | S n' =>
      '(v, r) ← parseValue n' s;
      match skip isJsonSpace r with
      | c :: r1 =>
          if Ascii.eqb c "]" then Some ([v], r1)
          else if Ascii.eqb c "," then
            '(vs, r2) ← parseElements n' (skip isJsonSpace r1);
            Some (v :: vs, r2)
          else None
      | [] => None
      end
  end
with parseMembers (n : nat) (s : Text) {struct n}
  : option (list (list N * JSON) * Text) :=
  match n with
  | 0%nat => None
  | S n' =>
      s1 ← expect dquote s;
      '(k, r) ← parseChars s1;
      r0 ← expect ":" (skip isJsonSpace r);
      '(v, r1) ← parseValue n' (skip isJsonSpace r0);
      match skip isJsonSpace r1 with
      | c :: r2 =>
          if Ascii.eqb c "}" then Some ([(k, v)], r2)
          else if Ascii.eqb c "," then
            '(ms, r3) ← parseMembers n' (skip isJsonSpace r2);
            Some ((k, v) :: ms, r3)
          else None
      | [] => None
      end
  end.

(** [JSON.parse(s)]; [None] is the [SyntaxError] it throws.  Nesting is
    never deeper than the text is long. *)
Definition JSON_parse (s : Text) : option JSON :=
  '(v, r) ← parseValue (2 * length s + 2) (skip isJsonSpace s);
  match skip isJsonSpace r with
  | [] => Some v
  | _ :: _ => None
  end.

(** The part of [getOpenAIMove] that reads the answer, [content] being
    [completion.data.choices[0].message.content]; [None] is [null]. *)
Definition parseContent (content : Text) : option JSON :=
  let raw := trim content in
  match search raw with
  | Some m => JSON_parse m
  | None =>
      if startsWithBracket raw then JSON_parse raw
      else None
  end.






(** The computer's turn of the version without client: the body of the
    timer that its effect starts under the same guard,
    [let [i, j] = findBestMove(board); handleCellClick(i, j, true);]. *)
Definition timerMove : Handler unit :=
  (s <- get ;;
   m <- orThrow (findBestMove (board s)) ;;
   handleCellClick (fst m) (snd m) true)%handler.

(** ** What the component renders *)

(** [isWinningCell(row, col)]:
    [winningLine && winningLine.some(([r, c]) => r === row && c === col)];
    the [null] of a missing line is as falsy as [false]. *)
Definition isWinningCell (s : State) (row col : Z) : bool :=
  match winningLine s with
  | None => false
  | Some (c1, c2, c3) =>
      existsb (fun rc => bool_decide (fst rc = row) && bool_decide (snd rc = col))
              [c1; c2; c3]
  end.

(** A button of the grid: the cell it is rendered for, which is also the
    argument of its [onClick], its content, its [disabled] attribute and
    whether it is drawn as a winning cell. *)
Record CellButton : Type := mkCellButton {
  cb_row : Z;
  cb_col : Z;
  cb_cell : Cell;
  cb_disabled : bool;
  cb_winning : bool
}.

(** The buttons of [renderBoardGrid]:
    [board.map((row, rIdx) => row.map((cell, cIdx) => <button .../>))]
    with [disabled={!!cell || !!calculateWinner(board)}]; the styles and
    the labels for assistive technology are left to the layout. *)
Definition renderBoardGrid (s : State) : list (list CellButton) :=
  imap (fun (rIdx : nat) (row : list Cell) =>
          imap (fun (cIdx : nat) (cell : Cell) =>
                  {| cb_row := Z.of_nat rIdx;
                     cb_col := Z.of_nat cIdx;
                     cb_cell := cell;
                     cb_disabled :=
                       truthy cell
                       || bool_decide (is_Some (calculateWinner (board s)));
                     cb_winning :=
                       isWinningCell s (Z.of_nat rIdx) (Z.of_nat cIdx) |})
               row)
       (board s).

(** An integer in a template literal; JavaScript writes the integers
    below 10^21 in decimal. *)
Definition decimal (z : Z) : string := NilZero.string_of_int (Z.to_int z).

(** [item.player] in a template literal. *)
Definition playerText (p : option Player) : string :=
  match p with
  | Some q => playerName q
  | None => "null"
  end.

(** The label of an entry of the move list; [None] is the [TypeError] of
    [item.move[0]] when the entry has no move. *)
Definition describe (idx : nat) (item : Entry) : option string :=
  if bool_decide (idx = 0%nat) then Some "Game start"%string
  else
    match entry_move item with
    | None => None
    | Some (r, c) =>
        Some ("#" ++ decimal (Z.of_nat idx) ++ ": Player "
                  ++ playerText (entry_player item)
                  ++ " at (" ++ decimal (r + 1) ++ "," ++ decimal (c + 1)
                  ++ ")")%string
    end.

(** A button of the move list: its label, whether it carries the class
    [selected], and the argument of the [jumpTo] of its [onClick]. *)
Record MoveButton : Type := mkMoveButton {
  mb_label : string;
  mb_selected : bool;
  mb_target : Z
}.

(** [history.map((item, idx) => ...)] from the position [idx] on. *)
Fixpoint renderEntries (s : State) (idx : nat) (items : list Entry)
  : option (list MoveButton) :=
  match items with
  | [] => Some []
  | item :: rest =>
      desc ← describe idx item;
      buttons ← renderEntries s (S idx) rest;
      Some ({| mb_label := desc;
               mb_selected := bool_decide (Z.of_nat idx = step s);
               mb_target := Z.of_nat idx |} :: buttons)
  end.

(** [renderMoveHistory]; [None] when building a label raises. *)
Definition renderMoveHistory (s : State) : option (list MoveButton) :=
  renderEntries s 0 (history s).

(** ** The board in the prompt *)

(** [c || "-"] *)
Definition cellChar (c : Cell) : ascii :=
  match c with
  | Some X => "X"
  | Some O => "O"
  | None => "-"
  end.

(** [parts.join(sep)] *)
Fixpoint joinWith (sep : Text) (parts : list Text) : Text :=
  match parts with
  | [] => []
  | [p] => p
  | p :: rest => p ++ sep ++ joinWith sep rest
  end.

(** [displayBoard]:
    [b.map(r => r.map(c => c || "-").join("")).join("\n")] *)
Definition displayBoard (b : Board) : Text :=
  joinWith ["010"%char]
           (map (fun r => joinWith [] (map (fun c => [cellChar c]) r)) b).

(** ** Sessions driven through the rendered interface

    The grid offers a click on each of its nine cells, the move list a jump
    to each recorded position; the effect of the computer's turn runs when
    its guard holds, with whatever the service answers.  [client] tells
    whether the OpenAI client is configured, which the environment fixes
    once and for all.  Each handler runs on the state the one before it
    left: an answer of the service that arrives after the user has acted
    in between is not part of these sessions. *)
Inductive uiSession (client : bool) : State -> Prop :=
| ui_init : uiSession client initialState
| ui_click (s : State) (row col : Z) :
    uiSession client s -> 0 <= row <= 2 -> 0 <= col <= 2 ->
    uiSession client (exec (handleCellClick row col false) s)
| ui_jump (s : State) (stepIdx : Z) :
    uiSession client s ->
    0 <= stepIdx < Z.of_nat (length (history s)) ->
    uiSession client (exec (jumpTo stepIdx) s)
| ui_reset (s : State) :
    uiSession client s -> uiSession client (exec handleReset s)
| ui_mode (s : State) (value : Mode) :
    uiSession client s -> uiSession client (exec (handleModeChange value) s)
| ui_computer (s : State) (answer : Awaited (option (list Z))) :
    uiSession client s -> aiTurn s = true ->
    uiSession client (exec (doAIMove client answer) s)
| ui_status (s : State) :
    uiSession client s -> uiSession client (exec winnerEffect s).

(** The number of marks on a board. *)
Definition marks (b : Board) : nat :=
  length (filter (fun c => truthy c = true) (concat b)).

(** ** Vocabulary of the specification *)

(** Coordinates of the 3x3 grid. *)
Definition inRange (z : Z) : Prop := 0 <= z <= 2.

(** The three cells of a line all hold the mark [p]. *)
Definition lineComplete (b : Board) (p : Player) (l : Line) : Prop :=
  let '((r1, c1), (r2, c2), (r3, c3)) := l in
  cellAt b r1 c1 = Some p /\ cellAt b r2 c2 = Some p /\ cellAt b r3 c3 = Some p.

(** No line of [ls] is complete for either mark. *)
Definition noLine (b : Board) (ls : list Line) : Prop :=
  forall l p, In l ls -> ~ lineComplete b p l.

(** [l] is the first line of the enumeration [ls] that is complete, and it
    is complete for [p]. *)
Definition firstComplete (b : Board) (ls : list Line) (p : Player) (l : Line)
  : Prop :=
  exists pre post,
    ls = pre ++ l :: post /\ lineComplete b p l /\ noLine b pre.

(** [isFull]: no cell of the grid is Empty. *)
Definition isFull (b : Board) : Prop :=
  forall r c, inRange r -> inRange c -> cellAt b r c <> None.

(** The cell [(r, c)] is Empty. *)
Definition isEmptyAt (b : Board) (r c : Z) : Prop :=
  inRange r /\ inRange c /\ cellAt b r c = None.

(** Row-major order on coordinates. *)
Definition rowMajorBefore (m m' : Coord) : Prop :=
  fst m < fst m' \/ (fst m = fst m' /\ snd m < snd m').

(** [k] is a position of the history. *)
Definition validIndex (s : State) (k : Z) : Prop :=
  0 <= k < Z.of_nat (length (history s)).

(** The guard of [handleCellClick] lets the move through: the game is not
    over, the targeted cell reads falsy, and it is not the computer's turn
    for a human click. *)
Definition accepted (row col : Z) (computerMove : bool) (s : State) : Prop :=
  calculateWinner (board s) = None
  /\ readCell (board s) row col = Some None
  /\ (isPvc (mode s) && negb (isXNext s) && negb computerMove) = false.

(** The entry a move appends to the history. *)
Definition moveEntry (row col : Z) (s : State) : Entry :=
  {| entry_board := placeMark (board s) row col (playerOf (isXNext s));
     entry_move := Some (row, col);
     entry_player := Some (playerOf (isXNext s)) |}.

(** The state after an accepted move. *)
Definition afterMove (row col : Z) (s : State) : State :=
  let nextHistory := slice0 (step s + 1) (history s) ++ [moveEntry row col s] in
  {| board := placeMark (board s) row col (playerOf (isXNext s));
     isXNext := negb (isXNext s);
     history := nextHistory;
     step := Z.of_nat (length nextHistory) - 1;
     mode := mode s; status := status s; winningLine := winningLine s;
     error := error s; aiThinking := aiThinking s |}.

(** The board shown is the one recorded at the current position. *)
Definition coherent (s : State) : Prop :=
  forall e, idx (history s) (step s) = Some e -> entry_board e = board s.

(** A handler keeps a property of the state, also when it raises. *)
Definition preserves {A : Type} (P : State -> Prop) (h : Handler A) : Prop :=
  forall s, P s -> P (exec h s).

(** The history starts with the entry written at initialisation, the
    position is not negative, and every later entry records its move and
    its player. *)
Definition rooted (s : State) : Prop :=
  0 <= step s
  /\ history s !! 0%nat = Some initialEntry
  /\ Forall (fun e => is_Some (entry_move e) /\ is_Some (entry_player e))
            (tail (history s)).

(** A run of blanks. *)
Definition blanks (t : Text) : Prop := Forall (fun c => c = " "%char) t.

(** A non-empty run of decimal digits. *)
Definition digitString (d : Text) : Prop :=
  d <> [] /\ Forall (fun c => isDigit c = true) d.

(** [m] is a bracketed array of the two integers written [d1] and [d2],
    with optional blanks around them. *)
Definition bracketedPair (m d1 d2 : Text) : Prop :=
  exists sp1 sp2 sp3 sp4,
    blanks sp1 /\ blanks sp2 /\ blanks sp3 /\ blanks sp4
    /\ digitString d1 /\ digitString d2
    /\ m = "["%char :: sp1 ++ d1 ++ sp2 ++ ","%char :: sp3 ++ d2 ++ sp4 ++ ["]"%char].

(** [m] is a substring of [raw] that starts after the prefix [pre]. *)
Definition occurs (raw pre m : Text) : Prop :=
  exists post, raw = pre ++ m ++ post.

(** [m] is the first substring of [raw] that is a bracketed pair. *)
Definition firstBracketedPair (raw m d1 d2 : Text) : Prop :=
  exists pre,
    occurs raw pre m /\ bracketedPair m d1 d2
    /\ forall pre' m' d1' d2',
        occurs raw pre' m' -> bracketedPair m' d1' d2' ->
        (length pre <= length pre')%nat.

(** No substring of [raw] is a bracketed pair. *)
Definition noBracketedPair (raw : Text) : Prop :=
  forall pre m d1 d2, occurs raw pre m -> ~ bracketedPair m d1 d2.

(** An integer is written as JSON writes it: without a superfluous
    leading zero. *)
Definition canonical (d : Text) : bool :=
  match d with
  | [] => false
  | [c] => true
  | c :: _ :: _ => negb (Ascii.eqb c "0")
  end.

(** The JSON array of the two numbers that the digits denote. *)
Definition pairOf (d1 d2 : Text) : JSON :=
  JArray [ JNumber (numberOf (digitsValue d1) 0);
           JNumber (numberOf (digitsValue d2) 0) ].

(** The array [[a, b]] of two integers. *)
Definition integerPair (a b : Z) : JSON :=
  JArray [ JNumber (Exact a); JNumber (Exact b) ].

(** A number that is not negative. *)
Definition nonNegative (x : JSNumber) : Prop :=
  match x with
  | Exact n => 0 <= n
  | Nearest m _ => 0 <= m
  end.

(** Two states of the same game: they differ at most in the status line,
    the highlighted line, the error message and the thinking flag. *)
Definition sameGame (s1 s2 : State) : Prop :=
  board s1 = board s2 /\ isXNext s1 = isXNext s2
  /\ history s1 = history s2 /\ step s1 = step s2 /\ mode s1 = mode s2.

(** A move the rules allow on a board: an Empty cell of the grid. *)
Definition legalMove (b : Board) (m : Coord) : Prop :=
  isEmptyAt b (fst m) (snd m).

(** [p] fails on the first character of [r], if there is one. *)
Definition stops (p : ascii -> bool) (r : Text) : Prop :=
  match r with
  | [] => True
  | c :: _ => p c = false
  end.

(** What may follow an integer of a bracketed pair. *)
Definition terminator (c : ascii) : Prop :=
  c = " "%char \/ c = ","%char \/ c = "]"%char.

(** A text that starts with a terminator. *)
Definition terminated (r : Text) : Prop :=
  exists c t, r = c :: t /\ terminator c.

(** The board shown and the boards of the history are 3x3. *)
Definition wellShaped (s : State) : Prop :=
  wf_board (board s)
  /\ Forall (fun e => wf_board (entry_board e)) (history s).

(** At most one of the two players has a complete line. *)
Definition oneWinner (b : Board) : Prop :=
  forall l1 l2,
    In l1 lines -> In l2 lines ->
    ~ (lineComplete b X l1 /\ lineComplete b O l2).

(** The three coordinates of a line. *)
Definition lineCells (l : Line) : list Coord :=
  let '(c1, c2, c3) := l in [c1; c2; c3].

(** The entry records a move. *)
Definition hasMove (e : Entry) : Prop := is_Some (entry_move e).

(** What holds of a session driven through the interface: the current
    position is recorded and its parity gives the turn, the board shown is
    the one recorded there, and each entry after the first records the
    move that leads to its board from the board before it, made by X at
    the odd positions and by O at the even ones. *)
Definition consistent (s : State) : Prop :=
  (0 <= step s < Z.of_nat (length (history s)))
  /\ isXNext s = Z.even (step s)
  /\ (forall e, idx (history s) (step s) = Some e -> entry_board e = board s)
  /\ (forall i prev e,
         history s !! i = Some prev -> history s !! S i = Some e ->
         exists r c,
           entry_move e = Some (r, c)
           /\ entry_player e = Some (playerOf (Nat.even i))
           /\ entry_board e
              = placeMark (entry_board prev) r c (playerOf (Nat.even i))).

(** The move the computer's turn plays on a board where the game is on:
    the suggested pair when the client is configured and the pair reads a
    falsy cell in a row of the grid, the move of the fallback selector
    otherwise. *)
Definition playedMove (openai : bool) (answer : Awaited (option (list Z)))
           (b : Board) : option Coord :=
  match openai, answer with
  | true, Resolved (Some [r; c]) =>
      match readCell b r c with
      | Some None => Some (r, c)
      | _ => findBestMove b
      end
  | _, _ => findBestMove b
  end.

(** Every move recorded in the history was legal on the board before
    it. *)
Definition legalLog (s : State) : Prop :=
  forall i prev e r c,
    history s !! i = Some prev -> history s !! S i = Some e ->
    entry_move e = Some (r, c) ->
    legalMove (entry_board prev) (r, c).

(** One for a mark, nothing for an Empty cell. *)
Definition mark1 (c : Cell) : nat := if truthy c then 1%nat else 0%nat.

(** ** Well-formed boards *)

Lemma wf_board_inv (b : Board) :
  wf_board b ->
  exists c00 c01 c02 c10 c11 c12 c20 c21 c22 : Cell,
    b = [[c00; c01; c02]; [c10; c11; c12]; [c20; c21; c22]].
Proof.
  intros [Hlen Hrows].
  destruct b as [|r0 [|r1 [|r2 [|? ?]]]]; simpl in Hlen; try discriminate.
  inversion Hrows as [|? ? H0 Hrows1]; subst.
  inversion Hrows1 as [|? ? H1 Hrows2]; subst.
  inversion Hrows2 as [|? ? H2 _]; subst.
  destruct r0 as [|? [|? [|? [|? ?]]]]; simpl in H0; try discriminate.
  destruct r1 as [|? [|? [|? [|? ?]]]]; simpl in H1; try discriminate.
  destruct r2 as [|? [|? [|? [|? ?]]]]; simpl in H2; try discriminate.
  eauto 10.
Qed.

Lemma wf_board_intro (c00 c01 c02 c10 c11 c12 c20 c21 c22 : Cell) :
  wf_board [[c00; c01; c02]; [c10; c11; c12]; [c20; c21; c22]].
Proof. split; [reflexivity | repeat constructor]. Qed.

Lemma wf_createEmptyBoard : wf_board createEmptyBoard.
Proof. apply wf_board_intro. Qed.

Lemma inRange_cases (z : Z) : inRange z -> z = 0 \/ z = 1 \/ z = 2.
Proof. unfold inRange. lia. Qed.

(** On a 3x3 board a read inside the grid never raises. *)
Lemma readCell_wf (b : Board) (r c : Z) :
  wf_board b -> inRange r -> inRange c ->
  readCell b r c = Some (cellAt b r c).
Proof.
  intros Hwf Hr Hc.
  destruct (wf_board_inv b Hwf) as (?&?&?&?&?&?&?&?&?&->).
  destruct (inRange_cases r Hr) as [-> | [-> | ->]];
    destruct (inRange_cases c Hc) as [-> | [-> | ->]]; reflexivity.
Qed.

(** ** calculateWinner *)

Lemma lineComplete_dec (b : Board) (l : Line) :
  (exists p, lineComplete b p l) \/ (forall p, ~ lineComplete b p l).
Proof.
  destruct l as [[[r1 c1] [r2 c2]] [r3 c3]]. unfold lineComplete.
  destruct (cellAt b r1 c1) as [p|] eqn:E1.
  - destruct (decide (cellAt b r2 c2 = Some p)) as [E2|N2].
    + destruct (decide (cellAt b r3 c3 = Some p)) as [E3|N3].
      * left. exists p. auto.
      * right. intros q (Hq & _ & H3). congruence.
    + right. intros q (Hq & H2 & _). congruence.
  - right. intros q (Hq & _). discriminate.
Qed.

Lemma scanLines_hit (b : Board) (p : Player) (l : Line) (rest : list Line) :
  lineComplete b p l -> scanLines b (l :: rest) = Some (Winner p l).
Proof.
  destruct l as [[[r1 c1] [r2 c2]] [r3 c3]]. simpl.
  intros (E1 & E2 & E3). rewrite E1, E2, E3.
  rewrite !bool_decide_eq_true_2 by reflexivity. reflexivity.
Qed.

Lemma scanLines_miss (b : Board) (l : Line) (rest : list Line) :
  (forall p, ~ lineComplete b p l) ->
  scanLines b (l :: rest) = scanLines b rest.
Proof.
  destruct l as [[[r1 c1] [r2 c2]] [r3 c3]]. simpl. intros Hno.
  destruct (cellAt b r1 c1) as [p|] eqn:E1; [|reflexivity].
  repeat case_bool_decide; simpl; try reflexivity.
  exfalso. apply (Hno p). auto.
Qed.

Lemma noLine_nil (b : Board) : noLine b [].
Proof. intros l p []. Qed.

Lemma noLine_cons (b : Board) (l : Line) (ls : list Line) :
  noLine b (l :: ls) <-> (forall p, ~ lineComplete b p l) /\ noLine b ls.
Proof.
  split.
  - intros H. split.
    + intros p. apply H. left. reflexivity.
    + intros l' p Hin. apply H. right. exact Hin.
  - intros [Hl Hls] l' p [<- | Hin]; [apply Hl | apply Hls, Hin].
Qed.

(** The loop returns nothing exactly when no line is complete. *)
Lemma scanLines_None (b : Board) (ls : list Line) :
  scanLines b ls = None <-> noLine b ls.
Proof.
  induction ls as [|l ls IH].
  - split; [intros _; apply noLine_nil | reflexivity].
  - rewrite noLine_cons.
    destruct (lineComplete_dec b l) as [[p Hp] | Hno].
    + rewrite (scanLines_hit b p l ls Hp). split; [discriminate|].
      intros [H _]. destruct (H p Hp).
    + rewrite (scanLines_miss b l ls Hno). rewrite IH. tauto.
Qed.

(** The loop never reports a draw. *)
Lemma scanLines_not_Draw (b : Board) (ls : list Line) :
  scanLines b ls <> Some Draw.
Proof.
  induction ls as [|l ls IH]; [discriminate|].
  destruct (lineComplete_dec b l) as [[p Hp] | Hno].
  - rewrite (scanLines_hit b p l ls Hp). discriminate.
  - rewrite (scanLines_miss b l ls Hno). exact IH.
Qed.

(** The loop returns the first complete line of the enumeration. *)
Lemma scanLines_Winner (b : Board) (ls : list Line) (p : Player) (l : Line) :
  scanLines b ls = Some (Winner p l) <-> firstComplete b ls p l.
Proof.
  induction ls as [|l0 ls IH].
  - split; [discriminate|].
    intros (pre & post & E & _). destruct pre; discriminate.
  - destruct (lineComplete_dec b l0) as [[q Hq] | Hno].
    + rewrite (scanLines_hit b q l0 ls Hq). split.
      * intros [= -> ->]. exists [], ls. auto using noLine_nil.
      * intros (pre & post & E & Hc & Hpre).
        destruct pre as [|x pre]; simpl in E; injection E as E1 E2; subst.
        -- destruct l as [[[r1 c1] [r2 c2]] [r3 c3]].
           destruct Hq as (Hq & _), Hc as (Hc & _).
           assert (q = p) by congruence. subst. reflexivity.
        -- exfalso. apply (Hpre x q); [left; reflexivity | exact Hq].
    + rewrite (scanLines_miss b l0 ls Hno), IH. split.
      * intros (pre & post & -> & Hc & Hpre).
        exists (l0 :: pre), post. split; [reflexivity|]. split; [exact Hc|].
        apply noLine_cons. auto.
      * intros (pre & post & E & Hc & Hpre).
        destruct pre as [|x pre]; simpl in E; injection E as E1 E2; subst.
        -- destruct (Hno p Hc).
        -- exists pre, post. split; [reflexivity|]. split; [exact Hc|].
           apply noLine_cons in Hpre. tauto.
Qed.

(** The draw test [board.every(row => row.every(cell => cell))]. *)
Lemma every_truthy_isFull (b : Board) :
  wf_board b ->
  forallb (fun row => forallb truthy row) b = true <-> isFull b.
Proof.
  intros Hwf.
  destruct (wf_board_inv b Hwf) as (c00&c01&c02&c10&c11&c12&c20&c21&c22&->).
  split.
  - intros H r c Hr Hc.
    destruct (inRange_cases r Hr) as [-> | [-> | ->]];
      destruct (inRange_cases c Hc) as [-> | [-> | ->]];
      destruct c00, c01, c02, c10, c11, c12, c20, c21, c22;
      simpl in H; try discriminate H; discriminate.
  - intros H.
    assert (R : forall r c, inRange r -> inRange c ->
                truthy (cellAt [[c00; c01; c02]; [c10; c11; c12]; [c20; c21; c22]] r c) = true).
    { intros r c Hr Hc. specialize (H r c Hr Hc).
      destruct (cellAt _ r c); [reflexivity | congruence]. }
    assert (I0 : inRange 0) by (unfold inRange; lia).
    assert (I1 : inRange 1) by (unfold inRange; lia).
    assert (I2 : inRange 2) by (unfold inRange; lia).
    pose proof (R 0 0 I0 I0). pose proof (R 0 1 I0 I1). pose proof (R 0 2 I0 I2).
    pose proof (R 1 0 I1 I0). pose proof (R 1 1 I1 I1). pose proof (R 1 2 I1 I2).
    pose proof (R 2 0 I2 I0). pose proof (R 2 1 I2 I1). pose proof (R 2 2 I2 I2).
    unfold cellAt in *. simpl in *.
    repeat match goal with H : _ = true |- _ => rewrite H; clear H end.
    reflexivity.
Qed.

(** C1.  The outcome evaluator checks the eight lines in the order three
    rows, three columns, two diagonals.  On every 3x3 board it returns
    [Winner p l] exactly when [l] is the first line of that enumeration whose
    three cells hold the same mark, [p] being that mark; it returns [Draw]
    exactly when no line is complete and every cell is marked, and [null]
    (in progress) exactly when no line is complete and some cell is Empty.
    The board [[X,X,X],[-,O,-],[O,-,-]] is won by X on the top row. *)
Theorem calculateWinner_first_line (b : Board) (Hwf : wf_board b) :
  lines =
    [ ((0,0), (0,1), (0,2)); ((1,0), (1,1), (1,2)); ((2,0), (2,1), (2,2));
      ((0,0), (1,0), (2,0)); ((0,1), (1,1), (2,1)); ((0,2), (1,2), (2,2));
      ((0,0), (1,1), (2,2)); ((0,2), (1,1), (2,0)) ]
  /\ (forall p l,
        calculateWinner b = Some (Winner p l) <-> firstComplete b lines p l)
  /\ (calculateWinner b = Some Draw <-> noLine b lines /\ isFull b)
  /\ (calculateWinner b = None <-> noLine b lines /\ ~ isFull b)
  /\ calculateWinner
       [[Some X; Some X; Some X]; [None; Some O; None]; [Some O; None; None]]
     = Some (Winner X ((0,0), (0,1), (0,2))).
Proof.
  split; [reflexivity|].
  pose proof (every_truthy_isFull b Hwf) as Hfull.
  pose proof (scanLines_None b lines) as HNone.
  pose proof (scanLines_not_Draw b lines) as HnD.
  unfold calculateWinner.
  refine (conj _ (conj _ (conj _ _))).
  - intros p l. split.
    + intros H. apply scanLines_Winner.
      destruct (scanLines b lines) as [w|]; [exact H|].
      destruct (forallb _ b); discriminate.
    + intros H. apply scanLines_Winner in H. rewrite H. reflexivity.
  - split.
    + destruct (scanLines b lines) as [w|]; [congruence|].
      destruct (forallb _ b); [|discriminate]. tauto.
    + intros [Hno Hf]. apply HNone in Hno. rewrite Hno.
      apply Hfull in Hf. rewrite Hf. reflexivity.
  - split.
    + destruct (scanLines b lines) as [w|]; [discriminate|].
      destruct (forallb _ b) eqn:E; [discriminate|].
      intros _. split; [tauto|]. intros Hf. apply Hfull in Hf. discriminate.
    + intros [Hno Hnf]. apply HNone in Hno. rewrite Hno.
      destruct (forallb _ b); [|reflexivity].
      exfalso. apply Hnf, Hfull. reflexivity.
  - reflexivity.
Qed.

Lemma calculateWinner_first_line_witness :
  calculateWinner
    [[Some X; Some O; Some X]; [Some X; Some O; Some O]; [Some O; Some X; Some X]]
  = Some Draw
  <-> noLine
        [[Some X; Some O; Some X]; [Some X; Some O; Some O]; [Some O; Some X; Some X]]
        lines
      /\ isFull
           [[Some X; Some O; Some X]; [Some X; Some O; Some O]; [Some O; Some X; Some X]].
Proof.
  refine (proj1 (proj2 (proj2 (calculateWinner_first_line _ _)))).
  split; [reflexivity | repeat constructor].
Defined.

(** ** findBestMove *)

(** The move [(i, j)] answers the specification of the fallback selector on
    a board given by its nine cells: the cell is Empty and no Empty cell
    precedes it in row-major order. *)
Ltac first_empty_at i j :=
  exists (i, j);
  split; [reflexivity|];
  split; [unfold isEmptyAt, inRange; simpl; repeat split;
          first [lia | reflexivity]|];
  let r' := fresh "r'" in
  let c' := fresh "c'" in
  let Hr := fresh "Hr" in
  let Hc := fresh "Hc" in
  let He := fresh "He" in
  let Hb := fresh "Hb" in
  intros r' c' (Hr & Hc & He) Hb;
  destruct (inRange_cases r' Hr) as [-> | [-> | ->]];
  destruct (inRange_cases c' Hc) as [-> | [-> | ->]];
  try discriminate He;
  unfold rowMajorBefore in Hb; simpl in Hb; lia.

(** C6, as the code has it.  On every 3x3 board with at least one Empty
    cell the fallback selector returns an Empty cell that no Empty cell
    precedes in row-major order (rows 0 to 2, columns 0 to 2 within a row);
    on [[X,X,-],[-,-,-],[-,-,-]] it returns (0,2).  On a board without
    Empty cell it returns [null]; and on every 3x3 board the call completes
    with the value returned, it raises no error. *)
Theorem findBestMove_row_major_first (b : Board) (Hwf : wf_board b) :
  ((exists r c, isEmptyAt b r c) ->
   exists m, findBestMove b = Some m
             /\ isEmptyAt b (fst m) (snd m)
             /\ forall r c, isEmptyAt b r c -> ~ rowMajorBefore (r, c) m)
  /\ (isFull b -> findBestMove b = None /\ callFindBestMove b = Normal None)
  /\ callFindBestMove b = Normal (findBestMove b)
  /\ findBestMove
       [[Some X; Some X; None]; [None; None; None]; [None; None; None]]
     = Some (0, 2).
Proof.
  destruct (wf_board_inv b Hwf) as (c00&c01&c02&c10&c11&c12&c20&c21&c22&->).
  assert (I0 : inRange 0) by (unfold inRange; lia).
  assert (I1 : inRange 1) by (unfold inRange; lia).
  assert (I2 : inRange 2) by (unfold inRange; lia).
  refine (conj _ (conj _ (conj _ _))).
  - intros (r & c & Hr & Hc & He).
    destruct c00 as [p00|]; [|first_empty_at 0 0].
    destruct c01 as [p01|]; [|first_empty_at 0 1].
    destruct c02 as [p02|]; [|first_empty_at 0 2].
    destruct c10 as [p10|]; [|first_empty_at 1 0].
    destruct c11 as [p11|]; [|first_empty_at 1 1].
    destruct c12 as [p12|]; [|first_empty_at 1 2].
    destruct c20 as [p20|]; [|first_empty_at 2 0].
    destruct c21 as [p21|]; [|first_empty_at 2 1].
    destruct c22 as [p22|]; [|first_empty_at 2 2].
    destruct (inRange_cases r Hr) as [-> | [-> | ->]];
      destruct (inRange_cases c Hc) as [-> | [-> | ->]]; discriminate He.
  - intros Hfull.
    pose proof (Hfull 0 0 I0 I0). pose proof (Hfull 0 1 I0 I1).
    pose proof (Hfull 0 2 I0 I2). pose proof (Hfull 1 0 I1 I0).
    pose proof (Hfull 1 1 I1 I1). pose proof (Hfull 1 2 I1 I2).
    pose proof (Hfull 2 0 I2 I0). pose proof (Hfull 2 1 I2 I1).
    pose proof (Hfull 2 2 I2 I2).
    destruct c00, c01, c02, c10, c11, c12, c20, c21, c22;
      first [split; reflexivity | exfalso; auto].
  - destruct c00, c01, c02, c10, c11, c12, c20, c21, c22; reflexivity.
  - reflexivity.
Qed.

Lemma findBestMove_row_major_first_witness :
  exists m,
    findBestMove [[Some X; Some O; Some X]; [Some O; None; None]; [None; Some X; None]]
    = Some m
    /\ isEmptyAt [[Some X; Some O; Some X]; [Some O; None; None]; [None; Some X; None]]
         (fst m) (snd m)
    /\ forall r c,
        isEmptyAt [[Some X; Some O; Some X]; [Some O; None; None]; [None; Some X; None]] r c ->
        ~ rowMajorBefore (r, c) m.
Proof.
  refine (proj1 (findBestMove_row_major_first _ _) _).
  - split; [reflexivity | repeat constructor].
  - exists 2, 2. unfold isEmptyAt, inRange. repeat split; first [lia | reflexivity].
Defined.

(** C6 as stated fails: on a board without Empty cell, here a drawn game,
    the selector does not fail with an error; the call completes and
    returns [null]. *)
Lemma findBestMove_full_board_returns_null :
  isFull [[Some X; Some O; Some X]; [Some X; Some O; Some O]; [Some O; Some X; Some X]]
  /\ callFindBestMove
       [[Some X; Some O; Some X]; [Some X; Some O; Some O]; [Some O; Some X; Some X]]
     = Normal None
  /\ callFindBestMove
       [[Some X; Some O; Some X]; [Some X; Some O; Some O]; [Some O; Some X; Some X]]
     <> Throw.
Proof.
  split; [|split; [reflexivity | discriminate]].
  intros r c Hr Hc.
  destruct (inRange_cases r Hr) as [-> | [-> | ->]];
    destruct (inRange_cases c Hc) as [-> | [-> | ->]]; discriminate.
Qed.

(** ** Array reads and slices *)

Lemma idx_Some_lt {A : Type} (l : list A) (i : Z) (a : A) :
  idx l i = Some a -> 0 <= i < Z.of_nat (length l).
Proof.
  unfold idx. case_decide; [|discriminate].
  intros Hl. apply lookup_lt_Some in Hl. lia.
Qed.

Lemma idx_lt_Some {A : Type} (l : list A) (i : Z) :
  0 <= i < Z.of_nat (length l) -> exists a, idx l i = Some a.
Proof.
  intros Hi. unfold idx. case_decide; [|lia].
  destruct (lookup_lt_is_Some_2 l (Z.to_nat i)) as [a Ha]; [lia|]. eauto.
Qed.

Lemma idx_None {A : Type} (l : list A) (i : Z) :
  ~ (0 <= i < Z.of_nat (length l)) -> idx l i = None.
Proof.
  intros Hi. unfold idx. case_decide; [|reflexivity].
  apply lookup_ge_None. lia.
Qed.

Lemma idx_imap {A B : Type} (f : nat -> A -> B) (l : list A) (i : Z) :
  idx (imap f l) i = f (Z.to_nat i) <$> idx l i.
Proof.
  unfold idx. case_decide; [|reflexivity]. apply list_lookup_imap.
Qed.

(** Cutting at a position that is not negative keeps that many elements. *)
Lemma slice0_nonneg {A : Type} (e : Z) (l : list A) :
  0 <= e -> slice0 e l = take (Z.to_nat e) l.
Proof.
  intros He. unfold slice0. case_decide; [lia|].
  destruct (Z.min_spec e (Z.of_nat (length l))) as [[_ ->] | [Hle ->]].
  - reflexivity.
  - rewrite Nat2Z.id. rewrite !firstn_all2; [reflexivity | lia | lia].
Qed.

Lemma slice0_length {A : Type} (e : Z) (l : list A) :
  0 <= e <= Z.of_nat (length l) -> Z.of_nat (length (slice0 e l)) = e.
Proof.
  intros He. rewrite slice0_nonneg by lia. rewrite length_take. lia.
Qed.

(** The elements before the cut are still in place after an append. *)
Lemma idx_slice0_app {A : Type} (e i : Z) (l tl : list A) :
  0 <= i < e -> i < Z.of_nat (length l) ->
  idx (slice0 e l ++ tl) i = idx l i.
Proof.
  intros Hi Hlen. rewrite slice0_nonneg by lia.
  unfold idx. case_decide; [|lia].
  rewrite lookup_app_l by (rewrite length_take; lia).
  apply lookup_take_lt. lia.
Qed.

(** ** Placing a mark *)

Lemma readCell_placeMark (b : Board) (row col : Z) (p : Player) (r c : Z) :
  readCell (placeMark b row col p) r c =
  match idx b r with
  | None => None
  | Some rw =>
      Some (match idx rw c with
            | None => None
            | Some cell =>
                if bool_decide (r = row) && bool_decide (c = col)
                then Some p else cell
            end)
  end.
Proof.
  unfold readCell, placeMark. rewrite idx_imap.
  destruct (idx b r) as [rw|] eqn:Er; simpl; [|reflexivity].
  rewrite idx_imap.
  destruct (idx rw c) as [cell|] eqn:Ec; simpl; [|reflexivity].
  apply idx_Some_lt in Er. apply idx_Some_lt in Ec.
  rewrite !Z2Nat.id by lia. reflexivity.
Qed.

(** Every cell other than the targeted one keeps its content. *)
Lemma cellAt_placeMark_other (b : Board) (row col : Z) (p : Player) (r c : Z) :
  (r, c) <> (row, col) ->
  cellAt (placeMark b row col p) r c = cellAt b r c.
Proof.
  intros Hne. unfold cellAt. rewrite readCell_placeMark. unfold readCell.
  destruct (idx b r) as [rw|]; simpl; [|reflexivity].
  destruct (idx rw c) as [cell|]; simpl; [|reflexivity].
  repeat case_bool_decide; simpl; try reflexivity. congruence.
Qed.

(** The targeted cell of the grid receives the mark. *)
Lemma cellAt_placeMark_target (b : Board) (row col : Z) (p : Player) :
  wf_board b -> inRange row -> inRange col ->
  cellAt (placeMark b row col p) row col = Some p.
Proof.
  intros Hwf Hr Hc.
  destruct (wf_board_inv b Hwf) as (?&?&?&?&?&?&?&?&?&->).
  destruct (inRange_cases row Hr) as [-> | [-> | ->]];
    destruct (inRange_cases col Hc) as [-> | [-> | ->]]; reflexivity.
Qed.

Lemma wf_placeMark (b : Board) (row col : Z) (p : Player) :
  wf_board b -> wf_board (placeMark b row col p).
Proof.
  intros Hwf.
  destruct (wf_board_inv b Hwf) as (?&?&?&?&?&?&?&?&?&->).
  apply wf_board_intro.
Qed.

(** A mark aimed outside the grid lands nowhere. *)
Lemma placeMark_outside (b : Board) (row col : Z) (p : Player) :
  wf_board b -> ~ (inRange row /\ inRange col) ->
  placeMark b row col p = b.
Proof.
  intros Hwf Hout.
  destruct (wf_board_inv b Hwf) as (?&?&?&?&?&?&?&?&?&->).
  unfold placeMark, inRange in *. simpl.
  repeat case_bool_decide; simpl; try reflexivity; lia.
Qed.

(** ** handleCellClick *)

Lemma accepted_dec (row col : Z) (cm : bool) (s : State) :
  {accepted row col cm s} + {~ accepted row col cm s}.
Proof.
  unfold accepted.
  destruct (calculateWinner (board s)); [right; intros (? & _); discriminate|].
  destruct (readCell (board s) row col) as [[?|]|];
    [right; intros (_ & ? & _); discriminate| |right; intros (_ & ? & _); discriminate].
  destruct (isPvc (mode s) && negb (isXNext s) && negb cm);
    [right; intros (_ & _ & ?); discriminate | left; auto].
Qed.

(** An accepted move records the new board and the new entry, and passes
    the turn. *)
Lemma handleCellClick_accepted (row col : Z) (cm : bool) (s : State) :
  accepted row col cm s ->
  handleCellClick row col cm s = (Normal tt, afterMove row col s).
Proof.
  intros (Hw & Hc & Hm).
  unfold handleCellClick, bind, get. rewrite Hw.
  rewrite bool_decide_eq_false_2 by (intros [? ?]; discriminate).
  rewrite Hc. simpl. rewrite Hm. reflexivity.
Qed.

(** A move that is not accepted changes nothing. *)
Lemma handleCellClick_rejected (row col : Z) (cm : bool) (s : State) :
  ~ accepted row col cm s ->
  exec (handleCellClick row col cm) s = s.
Proof.
  intros Hno. unfold accepted in Hno.
  unfold exec, handleCellClick, bind, get.
  destruct (calculateWinner (board s)) as [w|] eqn:Hw.
  - rewrite bool_decide_eq_true_2 by eauto. reflexivity.
  - rewrite bool_decide_eq_false_2 by (intros [? ?]; discriminate).
    destruct (readCell (board s) row col) as [[p|]|] eqn:Hc; simpl;
      try reflexivity.
    destruct (isPvc (mode s) && negb (isXNext s) && negb cm) eqn:Hm;
      [reflexivity | tauto].
Qed.

(** The handler raises only when the game is on and the row is missing. *)
Lemma handleCellClick_raised (row col : Z) (cm : bool) (s : State) :
  raised (handleCellClick row col cm) s = true <->
  calculateWinner (board s) = None /\ readCell (board s) row col = None.
Proof.
  unfold raised, handleCellClick, bind, get.
  destruct (calculateWinner (board s)) as [w|] eqn:Hw.
  - rewrite bool_decide_eq_true_2 by eauto. simpl.
    split; [discriminate | intros [? _]; discriminate].
  - rewrite bool_decide_eq_false_2 by (intros [? ?]; discriminate).
    destruct (readCell (board s) row col) as [[p|]|] eqn:Hc; simpl.
    + split; [discriminate | intros [_ ?]; discriminate].
    + destruct (isPvc (mode s) && negb (isXNext s) && negb cm); simpl;
        (split; [discriminate | intros [_ ?]; discriminate]).
    + tauto.
Qed.

(** ** Properties kept by the handlers *)

Lemma preserves_ret {A : Type} (P : State -> Prop) (a : A) :
  preserves P (ret a).
Proof. intros s Hs. exact Hs. Qed.

Lemma preserves_throw {A : Type} (P : State -> Prop) :
  preserves P (@throw A).
Proof. intros s Hs. exact Hs. Qed.

Lemma preserves_orThrow {A : Type} (P : State -> Prop) (o : option A) :
  preserves P (orThrow o).
Proof. destruct o; [apply preserves_ret | apply preserves_throw]. Qed.

Lemma preserves_bind {A B : Type} (P : State -> Prop)
      (m : Handler A) (k : A -> Handler B) :
  preserves P m -> (forall a, preserves P (k a)) -> preserves P (bind m k).
Proof.
  intros Hm Hk s Hs. specialize (Hm s Hs).
  unfold exec, bind in *. destruct (m s) as [[a|] s']; simpl in *.
  - apply Hk, Hm.
  - exact Hm.
Qed.

Lemma preserves_get {B : Type} (P : State -> Prop) (k : State -> Handler B) :
  (forall s0, P s0 -> preserves P (k s0)) -> preserves P (bind get k).
Proof. intros Hk s Hs. unfold exec, bind, get. apply Hk; exact Hs. Qed.

Lemma preserves_tryCatch {A : Type} (P : State -> Prop) (body handler : Handler A) :
  preserves P body -> preserves P handler -> preserves P (tryCatch body handler).
Proof.
  intros Hb Hh s Hs. specialize (Hb s Hs).
  unfold exec, tryCatch in *. destruct (body s) as [[a|] s']; simpl in *.
  - exact Hb.
  - apply Hh, Hb.
Qed.

(** A reset starts a fresh game in the current mode, a mode change a fresh
    game in the chosen mode. *)
Lemma handleReset_state (s : State) :
  exec handleReset s =
  mkState createEmptyBoard true [initialEntry] 0 (mode s) "Next: X" None
          EmptyString false.
Proof. reflexivity. Qed.

Lemma handleModeChange_state (value : Mode) (s : State) :
  exec (handleModeChange value) s =
  mkState createEmptyBoard true [initialEntry] 0 value "Next: X" None
          EmptyString false.
Proof. reflexivity. Qed.

Section Invariants.

Variable P : State -> Prop.

(** [P] does not depend on the status line, the highlighted line, the
    error message or the thinking flag. *)
Hypothesis P_presentation :
  forall s st wl er ai,
    P s ->
    P (mkState (board s) (isXNext s) (history s) (step s) (mode s)
               st wl er ai).

(** [P] survives an accepted move. *)
Hypothesis P_move :
  forall row col cm s, P s -> accepted row col cm s -> P (afterMove row col s).

(** [P] holds of a fresh game in either mode. *)
Hypothesis P_fresh :
  forall m st wl er ai,
    P (mkState createEmptyBoard true [initialEntry] 0 m st wl er ai).

Lemma preserves_setStatus (t : string) : preserves P (setStatus t).
Proof. intros s Hs. apply P_presentation, Hs. Qed.

Lemma preserves_setWinningLine (l : option Line) :
  preserves P (setWinningLine l).
Proof. intros s Hs. apply P_presentation, Hs. Qed.

Lemma preserves_setError (t : string) : preserves P (setError t).
Proof. intros s Hs. apply P_presentation, Hs. Qed.

Lemma preserves_setAiThinking (b : bool) : preserves P (setAiThinking b).
Proof. intros s Hs. apply P_presentation, Hs. Qed.

Lemma preserves_handleCellClick (row col : Z) (cm : bool) :
  preserves P (handleCellClick row col cm).
Proof.
  intros s Hs. destruct (accepted_dec row col cm s) as [Ha|Hn].
  - unfold exec. rewrite (handleCellClick_accepted row col cm s Ha).
    apply (P_move row col cm s Hs Ha).
  - rewrite (handleCellClick_rejected row col cm s Hn). exact Hs.
Qed.

Lemma preserves_handleReset : preserves P handleReset.
Proof. intros s _. rewrite handleReset_state. apply P_fresh. Qed.

Lemma preserves_handleModeChange (value : Mode) :
  preserves P (handleModeChange value).
Proof. intros s _. rewrite handleModeChange_state. apply P_fresh. Qed.

Lemma preserves_playFallback : preserves P playFallback.
Proof.
  apply preserves_get. intros s0 _.
  destruct (findBestMove (board s0)) as [[i j]|].
  - apply preserves_handleCellClick.
  - apply preserves_ret.
Qed.

Lemma preserves_doAIMove (openai : bool) (answer : Awaited (option (list Z))) :
  preserves P (doAIMove openai answer).
Proof.
  apply preserves_get. intros s0 _.
  apply preserves_bind; [apply preserves_setAiThinking | intros _].
  apply preserves_bind; [apply preserves_setError | intros _].
  apply preserves_bind; [| intros _; apply preserves_setAiThinking].
  destruct openai.
  - apply preserves_tryCatch.
    + destruct answer as [|[[|r [|c [|? ?]]]|]];
        try apply preserves_throw; try apply preserves_playFallback.
      apply preserves_bind; [apply preserves_orThrow | intros cell].
      destruct (truthy cell);
        [apply preserves_playFallback | apply preserves_handleCellClick].
    + apply preserves_bind; [apply preserves_setError | intros _].
      apply preserves_playFallback.
  - apply preserves_bind; [apply preserves_orThrow | intros m].
    apply preserves_handleCellClick.
Qed.

Lemma preserves_winnerEffect : preserves P winnerEffect.
Proof.
  apply preserves_get. intros s0 _.
  destruct (calculateWinner (board s0)) as [[w l|]|];
    (apply preserves_bind;
     [apply preserves_setStatus | intros _; apply preserves_setWinningLine]).
Qed.

(** Events that [P] is known to survive, the jumps among them. *)
Variable allowed : Event -> Prop.

Hypothesis P_jump :
  forall k, allowed (Jump k) -> preserves P (jumpTo k).

Lemma preserves_handle (e : Event) : allowed e -> preserves P (handle e).
Proof.
  destruct e; simpl; intros He.
  - apply preserves_handleCellClick.
  - apply P_jump, He.
  - apply preserves_handleReset.
  - apply preserves_handleModeChange.
  - apply preserves_doAIMove.
  - apply preserves_winnerEffect.
Qed.

Lemma preserves_run (evs : list Event) (s : State) :
  Forall allowed evs -> P s -> P (run evs s).
Proof.
  intros Hall. revert s.
  induction Hall as [|e evs He _ IH]; intros s Hs; simpl.
  - exact Hs.
  - apply IH. apply (preserves_handle e He s Hs).
Qed.

End Invariants.

(** ** jumpTo *)

Lemma rem2_even (k : Z) : 0 <= k -> bool_decide (Z.rem k 2 = 0) = Z.even k.
Proof.
  intros Hk. rewrite Z.rem_mod_nonneg by lia. rewrite Zmod_even.
  destruct (Z.even k); reflexivity.
Qed.

(** A jump to a recorded position shows the board recorded there. *)
Lemma jumpTo_Some (k : Z) (s : State) (e : Entry) :
  idx (history s) k = Some e ->
  jumpTo k s =
  (Normal tt,
   mkState (entry_board e) (Z.even k) (history s) k (mode s) (status s)
           None (error s) (aiThinking s)).
Proof.
  intros He. unfold jumpTo, bind, get, setStep. simpl. rewrite He. simpl.
  unfold setIsXNext, setWinningLine, setBoard. simpl.
  rewrite rem2_even by (apply idx_Some_lt in He; lia). reflexivity.
Qed.

(** A jump to a position that is not recorded raises after the position
    has been set. *)
Lemma jumpTo_None (k : Z) (s : State) :
  idx (history s) k = None ->
  jumpTo k s =
  (Throw,
   mkState (board s) (isXNext s) (history s) k (mode s) (status s)
           (winningLine s) (error s) (aiThinking s)).
Proof.
  intros He. unfold jumpTo, bind, get, setStep. simpl. rewrite He. reflexivity.
Qed.

(** ** Two invariants of a session *)

Lemma coherent_initial : coherent initialState.
Proof.
  intros e. unfold idx. simpl. intros [= <-]. reflexivity.
Qed.

Lemma idx_last_app {A : Type} (l : list A) (a : A) :
  idx (l ++ [a]) (Z.of_nat (length (l ++ [a])) - 1) = Some a.
Proof.
  unfold idx. rewrite length_app. simpl. case_decide; [|lia].
  replace (Z.to_nat (Z.of_nat (length l + 1) - 1)) with (length l) by lia.
  rewrite lookup_app_r by lia.
  replace (length l - length l)%nat with 0%nat by lia. reflexivity.
Qed.

Lemma coherent_afterMove (row col : Z) (s : State) :
  coherent (afterMove row col s).
Proof.
  intros e. unfold afterMove. simpl. rewrite idx_last_app.
  intros [= <-]. reflexivity.
Qed.

Lemma coherent_jumpTo (k : Z) : preserves coherent (jumpTo k).
Proof.
  intros s _. unfold exec.
  destruct (idx (history s) k) as [e|] eqn:He.
  - rewrite (jumpTo_Some k s e He). intros e'. simpl.
    rewrite He. intros [= <-]. reflexivity.
  - rewrite (jumpTo_None k s He). intros e'. simpl.
    rewrite He. discriminate.
Qed.

(** In every reachable state the board shown is the one recorded at the
    current position, whenever that position is recorded. *)
Lemma reachable_coherent (s : State) : reachable s -> coherent s.
Proof.
  intros [evs ->].
  apply (preserves_run coherent) with (allowed := fun _ => True).
  - intros s st wl er ai Hs. exact Hs.
  - intros row col cm s _ _. apply coherent_afterMove.
  - intros m st wl er ai e. unfold idx. simpl. intros [= <-]. reflexivity.
  - intros k _. apply coherent_jumpTo.
  - apply Forall_forall. intros; exact I.
  - apply coherent_initial.
Qed.

Lemma rooted_initial : rooted initialState.
Proof.
  unfold rooted. simpl. split; [lia|]. split; [reflexivity | constructor].
Qed.

Lemma rooted_afterMove (row col : Z) (s : State) :
  rooted s -> rooted (afterMove row col s).
Proof.
  intros (Hstep & H0 & Htl). unfold rooted, afterMove. simpl.
  rewrite slice0_nonneg by lia.
  destruct (history s) as [|e0 rest] eqn:Eh; [discriminate|].
  simpl in H0, Htl.
  replace (Z.to_nat (step s + 1)) with (S (Z.to_nat (step s))) by lia.
  simpl. split; [lia|]. split; [exact H0|].
  apply Forall_app. split.
  - apply Forall_take, Htl.
  - constructor; [|constructor]. simpl. eauto.
Qed.

Lemma rooted_jumpTo (k : Z) : 0 <= k -> preserves rooted (jumpTo k).
Proof.
  intros Hk s (Hstep & H0 & Htl). unfold exec.
  destruct (idx (history s) k) as [e|] eqn:He.
  - rewrite (jumpTo_Some k s e He). unfold rooted. simpl. auto.
  - rewrite (jumpTo_None k s He). unfold rooted. simpl. auto.
Qed.

(** The first entry is never replaced while the jumps are to indices that
    are not negative. *)
Lemma run_rooted (evs : list Event) :
  Forall nonNegativeJump evs -> rooted (run evs initialState).
Proof.
  intros Hall.
  apply (preserves_run rooted) with (allowed := nonNegativeJump).
  - intros s st wl er ai Hs. exact Hs.
  - intros row col cm s Hs _. apply rooted_afterMove, Hs.
  - intros m st wl er ai. unfold rooted. simpl.
    split; [lia|]. split; [reflexivity | constructor].
  - intros k Hk. apply rooted_jumpTo, Hk.
  - exact Hall.
  - apply rooted_initial.
Qed.

Lemma wellShaped_afterMove (row col : Z) (s : State) :
  wellShaped s -> wellShaped (afterMove row col s).
Proof.
  intros [Hb Hh]. split; simpl.
  - apply wf_placeMark, Hb.
  - apply Forall_app. split.
    + unfold slice0. apply Forall_take, Hh.
    + constructor; [|constructor]. simpl. apply wf_placeMark, Hb.
Qed.

Lemma wellShaped_jumpTo (k : Z) : preserves wellShaped (jumpTo k).
Proof.
  intros s [Hb Hh]. unfold exec.
  destruct (idx (history s) k) as [e|] eqn:He.
  - rewrite (jumpTo_Some k s e He). split; simpl; [|exact Hh].
    rewrite Forall_forall in Hh. apply Hh.
    unfold idx in He. case_decide; [|discriminate].
    apply list_elem_of_lookup. eauto.
  - rewrite (jumpTo_None k s He). split; assumption.
Qed.

(** Every board of a session is 3x3. *)
Lemma reachable_wellShaped (s : State) : reachable s -> wellShaped s.
Proof.
  intros [evs ->].
  apply (preserves_run wellShaped) with (allowed := fun _ => True).
  - intros s st wl er ai Hs. exact Hs.
  - intros row col cm s Hs _. apply wellShaped_afterMove, Hs.
  - intros m st wl er ai. split; simpl.
    + apply wf_createEmptyBoard.
    + constructor; [apply wf_createEmptyBoard | constructor].
  - intros k _. apply wellShaped_jumpTo.
  - apply Forall_forall. intros; exact I.
  - split; simpl.
    + apply wf_createEmptyBoard.
    + constructor; [apply wf_createEmptyBoard | constructor].
Qed.

(** ** The claims about the session *)

(** C3.  When the history has [N] entries and the current position is [k]
    with [0 <= k < N - 1], a move that the guard accepts (a human move in
    particular) keeps the entries [0..k], drops the entries [k+1..N-1] and
    appends the new entry: the history then has exactly [k + 2] entries
    and the current position is [k + 1]. *)
Theorem handleCellClick_truncates_history
        (row col : Z) (computerMove : bool) (s : State)
        (Hk : 0 <= step s < Z.of_nat (length (history s)) - 1)
        (Hacc : accepted row col computerMove s) :
  history (exec (handleCellClick row col computerMove) s)
  = take (Z.to_nat (step s + 1)) (history s) ++ [moveEntry row col s]
  /\ Z.of_nat (length (history (exec (handleCellClick row col computerMove) s)))
     = step s + 2
  /\ step (exec (handleCellClick row col computerMove) s) = step s + 1.
Proof.
  unfold exec. rewrite (handleCellClick_accepted row col computerMove s Hacc).
  simpl. rewrite slice0_nonneg by lia.
  assert (Hlen : Z.of_nat (length (take (Z.to_nat (step s + 1)) (history s)
                                   ++ [moveEntry row col s])) = step s + 2).
  { rewrite length_app, length_take. simpl. lia. }
  split; [reflexivity|]. split; [exact Hlen | lia].
Qed.

Lemma handleCellClick_truncates_history_witness :
  Z.of_nat
    (length
       (history
          (exec (handleCellClick 2 2 false)
                (run [Click 0 0 false; Click 1 1 false; Click 0 1 false; Jump 1]
                     initialState))))
  = 3.
Proof.
  refine (proj1 (proj2 (handleCellClick_truncates_history
                          2 2 false
                          (run [Click 0 0 false; Click 1 1 false;
                                Click 0 1 false; Jump 1] initialState)
                          _ _))).
  - vm_compute. split; [discriminate | reflexivity].
  - vm_compute. repeat split; reflexivity.
Defined.

(** C7.  For every valid index [k], [jumpTo k] completes, leaves the
    history (its length and every entry) and the mode as they were, sets
    the current position to [k], and gives the turn to X when [k] is even
    and to O when [k] is odd. *)
Theorem jumpTo_valid_frame (k : Z) (s : State) (Hk : validIndex s k) :
  raised (jumpTo k) s = false
  /\ history (exec (jumpTo k) s) = history s
  /\ step (exec (jumpTo k) s) = k
  /\ isXNext (exec (jumpTo k) s) = Z.even k
  /\ playerOf (isXNext (exec (jumpTo k) s)) = (if Z.even k then X else O)
  /\ mode (exec (jumpTo k) s) = mode s.
Proof.
  destruct (idx_lt_Some (history s) k Hk) as [e He].
  unfold raised, exec. rewrite (jumpTo_Some k s e He). simpl.
  repeat split; reflexivity.
Qed.

Lemma jumpTo_valid_frame_witness :
  step (exec (jumpTo 1)
             (run [Click 0 0 false; Click 1 1 false] initialState)) = 1.
Proof.
  refine (proj1 (proj2 (proj2 (jumpTo_valid_frame
                                 1
                                 (run [Click 0 0 false; Click 1 1 false]
                                      initialState) _)))).
  vm_compute. split; [discriminate | reflexivity].
Defined.

(** C4, as the code has it.  For every integer that is not a position of
    the history, [jumpTo] raises (the read of [history[stepIdx].board]
    fails), and the history, the board, the turn and the mode are as
    before; the current position, set before the read, is the index
    given. *)
Theorem jumpTo_invalid_raises (k : Z) (s : State) (Hk : ~ validIndex s k) :
  raised (jumpTo k) s = true
  /\ history (exec (jumpTo k) s) = history s
  /\ board (exec (jumpTo k) s) = board s
  /\ isXNext (exec (jumpTo k) s) = isXNext s
  /\ mode (exec (jumpTo k) s) = mode s
  /\ step (exec (jumpTo k) s) = k.
Proof.
  unfold raised, exec. rewrite (jumpTo_None k s (idx_None _ _ Hk)). simpl.
  repeat split; reflexivity.
Qed.

Lemma jumpTo_invalid_raises_witness :
  board (exec (jumpTo 7) initialState) = board initialState.
Proof.
  refine (proj1 (proj2 (proj2 (jumpTo_invalid_raises 7 initialState _)))).
  vm_compute. intros [_ H]. discriminate H.
Defined.

(** C4 as stated fails: 5 is not a position of the initial history, and
    [jumpTo 5] raises but leaves the current position at 5 instead of 0. *)
Lemma jumpTo_invalid_changes_step :
  ~ validIndex initialState 5
  /\ raised (jumpTo 5) initialState = true
  /\ step initialState = 0
  /\ step (exec (jumpTo 5) initialState) = 5
  /\ exec (jumpTo 5) initialState <> initialState.
Proof.
  split; [vm_compute; intros [_ H]; discriminate H|].
  split; [reflexivity|]. split; [reflexivity|]. split; [reflexivity|].
  intros H. apply (f_equal step) in H. discriminate H.
Qed.

(** C5, as the code has it.  On a 3x3 board [handleCellClick] leaves the
    whole state unchanged whenever the targeted cell is not Empty or the
    row is outside [0..2].  When the cell is an Empty cell of the grid and
    the guard lets the move through (the game is not over and it is not
    the computer's turn for a human click), the new board is 3x3, holds the
    mover's mark in the targeted cell and agrees with the old board in
    every other cell; the old board is not modified: the entries up to the
    current position, the one holding the old board among them, are the
    same after the move. *)
Theorem handleCellClick_frame
        (row col : Z) (computerMove : bool) (s : State)
        (Hwf : wf_board (board s)) :
  (cellAt (board s) row col <> None \/ ~ inRange row ->
   exec (handleCellClick row col computerMove) s = s)
  /\ (isEmptyAt (board s) row col ->
      calculateWinner (board s) = None ->
      (isPvc (mode s) && negb (isXNext s) && negb computerMove) = false ->
      wf_board (board (exec (handleCellClick row col computerMove) s))
      /\ cellAt (board (exec (handleCellClick row col computerMove) s)) row col
         = Some (playerOf (isXNext s))
      /\ (forall r c,
             (r, c) <> (row, col) ->
             cellAt (board (exec (handleCellClick row col computerMove) s)) r c
             = cellAt (board s) r c)
      /\ (forall i,
             0 <= i <= step s -> i < Z.of_nat (length (history s)) ->
             idx (history (exec (handleCellClick row col computerMove) s)) i
             = idx (history s) i)).
Proof.
  split.
  - intros Hbad. apply handleCellClick_rejected. intros (_ & Hc & _).
    destruct Hbad as [Hocc | Hrow].
    + apply Hocc. unfold cellAt. rewrite Hc. reflexivity.
    + apply Hrow. unfold readCell in Hc.
      destruct (idx (board s) row) as [rw|] eqn:Er; [|discriminate].
      apply idx_Some_lt in Er. destruct Hwf as [Hlen _].
      unfold inRange. lia.
  - intros (Hr & Hc & He) Hw Hm.
    assert (Hacc : accepted row col computerMove s).
    { split; [exact Hw|]. split; [|exact Hm].
      rewrite (readCell_wf _ _ _ Hwf Hr Hc), He. reflexivity. }
    unfold exec. rewrite (handleCellClick_accepted _ _ _ _ Hacc). simpl.
    split; [apply wf_placeMark, Hwf|].
    split; [apply cellAt_placeMark_target; assumption|].
    split; [intros r c Hne; apply cellAt_placeMark_other, Hne|].
    intros i Hi Hlen. apply idx_slice0_app; lia.
Qed.

Lemma handleCellClick_frame_witness :
  exec (handleCellClick 0 0 false) (run [Click 0 0 false] initialState)
  = run [Click 0 0 false] initialState.
Proof.
  refine (proj1 (handleCellClick_frame
                   0 0 false (run [Click 0 0 false] initialState) _) _).
  - split; [reflexivity | repeat constructor].
  - left. vm_compute. discriminate.
Defined.

(** C5 as stated fails: column 3 is outside [0..2], yet the click on
    (0, 3) in the initial state is not rejected.  It completes, appends an
    entry to the history and passes the turn, with no mark placed. *)
Lemma handleCellClick_column_unchecked :
  ~ inRange 3
  /\ raised (handleCellClick 0 3 false) initialState = false
  /\ exec (handleCellClick 0 3 false) initialState <> initialState
  /\ length (history (exec (handleCellClick 0 3 false) initialState)) = 2%nat
  /\ isXNext (exec (handleCellClick 0 3 false) initialState) = false
  /\ board (exec (handleCellClick 0 3 false) initialState) = board initialState.
Proof.
  split; [unfold inRange; lia|].
  split; [reflexivity|].
  split; [intros H; apply (f_equal isXNext) in H; discriminate H|].
  repeat split; reflexivity.
Qed.

(** C10.  For every valid index [k], after [jumpTo k] the board shown is
    the one stored in [history[k]]; hence, in a reachable state whose
    current position is [k], making an accepted move and then jumping to
    [k] shows again the board that was shown before the move. *)
Theorem jumpTo_restores_board (k : Z) (s : State) (Hk : validIndex s k) :
  (exists e, idx (history s) k = Some e
             /\ board (exec (jumpTo k) s) = entry_board e)
  /\ (forall row col computerMove,
         reachable s -> step s = k -> accepted row col computerMove s ->
         raised (jumpTo k) (exec (handleCellClick row col computerMove) s) = false
         /\ board (exec (jumpTo k) (exec (handleCellClick row col computerMove) s))
            = board s).
Proof.
  destruct (idx_lt_Some (history s) k Hk) as [e He].
  split.
  - exists e. split; [exact He|].
    unfold exec. rewrite (jumpTo_Some k s e He). reflexivity.
  - intros row col cm Hreach Hstep Hacc.
    pose proof (reachable_coherent s Hreach e) as Hco.
    rewrite Hstep in Hco. specialize (Hco He).
    unfold validIndex in Hk.
    assert (He' : idx (history (exec (handleCellClick row col cm) s)) k = Some e).
    { unfold exec. rewrite (handleCellClick_accepted _ _ _ _ Hacc). simpl.
      rewrite idx_slice0_app by lia. exact He. }
    set (s1 := exec (handleCellClick row col cm) s) in *.
    unfold raised, exec. rewrite (jumpTo_Some k s1 e He').
    simpl. auto.
Qed.

Lemma jumpTo_restores_board_witness :
  board (exec (jumpTo 1)
              (exec (handleCellClick 2 2 false)
                    (run [Click 0 0 false] initialState)))
  = board (run [Click 0 0 false] initialState).
Proof.
  refine (proj2 (proj2 (jumpTo_restores_board
                          1 (run [Click 0 0 false] initialState) _)
                       2 2 false _ _ _)).
  - vm_compute. split; [discriminate | reflexivity].
  - exists [Click 0 0 false]. reflexivity.
  - reflexivity.
  - vm_compute. repeat split; reflexivity.
Defined.

(** C9, as the code has it.  In every state reached from initialisation by
    clicks, resets, mode changes, computer turns and jumps to indices that
    are not negative, [history[0]] is the all-Empty board with no recorded
    move, and its recorded player is X; every later entry records both a
    move and a player. *)
Theorem history_head_is_initial_entry
        (evs : list Event) (Hjumps : Forall nonNegativeJump evs) :
  (exists e0,
      history (run evs initialState) !! 0%nat = Some e0
      /\ entry_board e0 = [[None; None; None]; [None; None; None]; [None; None; None]]
      /\ entry_move e0 = None
      /\ entry_player e0 = Some X)
  /\ (forall i e,
         (0 < i)%nat -> history (run evs initialState) !! i = Some e ->
         is_Some (entry_move e) /\ is_Some (entry_player e)).
Proof.
  destruct (run_rooted evs Hjumps) as (_ & H0 & Htl).
  split.
  - exists initialEntry. split; [exact H0|]. repeat split; reflexivity.
  - intros i e Hi Hl.
    destruct (history (run evs initialState)) as [|e0 rest]; [discriminate|].
    destruct i as [|i]; [lia|]. simpl in Hl, Htl.
    rewrite Forall_forall in Htl. apply Htl.
    apply list_elem_of_lookup. eauto.
Qed.

Lemma history_head_is_initial_entry_witness :
  exists e0,
    history (run [Click 1 1 false; Jump 4; Click 0 0 false; Jump 0; Click 2 2 false]
                 initialState) !! 0%nat = Some e0
    /\ entry_board e0 = [[None; None; None]; [None; None; None]; [None; None; None]]
    /\ entry_move e0 = None
    /\ entry_player e0 = Some X.
Proof.
  refine (proj1 (history_head_is_initial_entry
                   [Click 1 1 false; Jump 4; Click 0 0 false; Jump 0;
                    Click 2 2 false] _)).
  repeat constructor; simpl; lia.
Defined.

(** C9 as stated fails in the initial state already: the entry written at
    initialisation records the player X. *)
Lemma initial_entry_records_player :
  reachable initialState
  /\ entry_player <$> history initialState !! 0%nat = Some (Some X)
  /\ ~ (exists e0, history initialState !! 0%nat = Some e0
                   /\ entry_player e0 = None).
Proof.
  split; [exists []; reflexivity|].
  split; [reflexivity|].
  intros (e0 & He & Hp). simpl in He. injection He as <-. discriminate Hp.
Qed.

(** A jump to a negative index, which raises, lets the next move replace
    the first entry. *)
Lemma negative_jump_uproots_history :
  history (run [Jump (-1); Click 0 0 false] initialState)
  = [ {| entry_board := [[Some X; None; None]; [None; None; None]; [None; None; None]];
         entry_move := Some (0, 0);
         entry_player := Some X |} ].
Proof. reflexivity. Qed.

(** ** The suggestion adapter *)

(** *** Characters *)

Lemma isDigit_inv (c : ascii) :
  isDigit c = true ->
  In c ["0"; "1"; "2"; "3"; "4"; "5"; "6"; "7"; "8"; "9"]%char.
Proof.
  destruct c as [[] [] [] [] [] [] [] []]; intros H;
    try discriminate H; simpl; tauto.
Qed.

(** A digit is none of the characters that start another kind of JSON
    value, continue a number or separate the elements of an array. *)
Lemma digit_plain (c : ascii) :
  isDigit c = true ->
  isSpace c = false /\ isJsonSpace c = false
  /\ Ascii.eqb c "[" = false /\ Ascii.eqb c "]" = false
  /\ Ascii.eqb c "{" = false /\ Ascii.eqb c dquote = false
  /\ Ascii.eqb c "t" = false /\ Ascii.eqb c "f" = false
  /\ Ascii.eqb c "n" = false /\ Ascii.eqb c "-" = false
  /\ Ascii.eqb c "." = false /\ Ascii.eqb c "e" = false
  /\ Ascii.eqb c "E" = false /\ Ascii.eqb c "," = false.
Proof.
  intros H. apply isDigit_inv in H. simpl in H.
  repeat (destruct H as [<- | H]; [repeat split; reflexivity|]).
  destruct H.
Qed.

Lemma terminator_plain (c : ascii) :
  terminator c ->
  isDigit c = false /\ Ascii.eqb c "." = false
  /\ Ascii.eqb c "e" = false /\ Ascii.eqb c "E" = false.
Proof. intros [-> | [-> | ->]]; repeat split; reflexivity. Qed.

(** *** Longest prefixes *)

Lemma span_app (p : ascii -> bool) (a r : Text) :
  Forall (fun c => p c = true) a -> stops p r -> span p (a ++ r) = (a, r).
Proof.
  intros Ha Hr. induction Ha as [|c a Hc _ IH]; simpl.
  - destruct r as [|c r]; [reflexivity|]. simpl in *. rewrite Hr. reflexivity.
  - rewrite Hc, IH. reflexivity.
Qed.

Lemma span_spec (p : ascii -> bool) (s a r : Text) :
  span p s = (a, r) ->
  s = a ++ r /\ Forall (fun c => p c = true) a /\ stops p r.
Proof.
  revert a r. induction s as [|c s IH]; simpl; intros a r E.
  - injection E as <- <-. repeat split. constructor.
  - destruct (p c) eqn:Hc.
    + destruct (span p s) as [a' r'] eqn:Es. injection E as <- <-.
      destruct (IH a' r' eq_refl) as (-> & Ha & Hr).
      repeat split; [constructor; assumption | exact Hr].
    + injection E as <- <-. repeat split; [constructor | exact Hc].
Qed.

Lemma skip_app (p : ascii -> bool) (a r : Text) :
  Forall (fun c => p c = true) a -> stops p r -> skip p (a ++ r) = r.
Proof. intros Ha Hr. unfold skip. rewrite (span_app p a r Ha Hr). reflexivity. Qed.

Lemma skip_stops (p : ascii -> bool) (r : Text) : stops p r -> skip p r = r.
Proof. intros Hr. apply (skip_app p [] r); [constructor | exact Hr]. Qed.

Lemma blanks_isSpace (sp : Text) :
  blanks sp <-> Forall (fun c => isSpace c = true) sp.
Proof.
  unfold blanks. split; intros H; induction H as [|c sp Hc _ IH];
    constructor; try exact IH.
  - subst c. reflexivity.
  - apply Ascii.eqb_eq in Hc. exact Hc.
Qed.

Lemma blanks_isJsonSpace (sp : Text) :
  blanks sp -> Forall (fun c => isJsonSpace c = true) sp.
Proof.
  intros H. induction H as [|c sp -> _ IH]; constructor;
    [reflexivity | exact IH].
Qed.

Lemma digits1_app (d r : Text) :
  digitString d -> stops isDigit r -> digits1 (d ++ r) = Some (d, r).
Proof.
  intros [Hne Hd] Hr. unfold digits1. rewrite (span_app isDigit d r Hd Hr).
  destruct d; [congruence | reflexivity].
Qed.

Lemma digits1_spec (s d r : Text) :
  digits1 s = Some (d, r) ->
  s = d ++ r /\ digitString d /\ stops isDigit r.
Proof.
  unfold digits1. destruct (span isDigit s) as [a r'] eqn:E.
  destruct a as [|c a]; [discriminate|]. intros [= <- <-].
  destruct (span_spec isDigit s (c :: a) r' E) as (-> & Ha & Hr).
  repeat split; [discriminate | exact Ha | exact Hr].
Qed.

Lemma expect_spec (c : ascii) (s t : Text) :
  expect c s = Some t <-> s = c :: t.
Proof.
  unfold expect. destruct s as [|c' s]; [split; discriminate|].
  destruct (Ascii.eqb c' c) eqn:E.
  - apply Ascii.eqb_eq in E. subst c'. split; intros H; inversion H; reflexivity.
  - apply Ascii.eqb_neq in E. split; [discriminate|].
    intros H. inversion H. contradiction.
Qed.

(** The first character of a digit string followed by anything satisfies
    what every digit satisfies. *)
Lemma digitString_head (d : Text) :
  digitString d -> exists c t, d = c :: t /\ isDigit c = true.
Proof.
  intros [Hne Hd]. destruct d as [|c t]; [congruence|].
  inversion Hd; subst. eauto.
Qed.

Lemma stops_digits (p : ascii -> bool) (d r : Text) :
  digitString d -> (forall c, isDigit c = true -> p c = false) ->
  stops p (d ++ r).
Proof.
  intros Hd Hp. destruct (digitString_head d Hd) as (c & t & -> & Hc).
  simpl. apply Hp, Hc.
Qed.

Lemma stops_blanks_then (p : ascii -> bool) (sp : Text) (c : ascii) (r : Text) :
  blanks sp -> p " "%char = false -> p c = false -> stops p (sp ++ c :: r).
Proof.
  intros Hsp Hs Hc. destruct Hsp as [|x sp -> _]; simpl; assumption.
Qed.

(** *** The regular expression *)

Lemma bracketedPair_app (sp1 d1 sp2 sp3 d2 sp4 post : Text) :
  ("["%char :: sp1 ++ d1 ++ sp2 ++ ","%char :: sp3 ++ d2 ++ sp4 ++ ["]"%char]) ++ post
  = "["%char :: sp1 ++ d1 ++ sp2 ++ ","%char :: sp3 ++ d2 ++ sp4 ++ "]"%char :: post.
Proof.
  simpl. f_equal.
  repeat first [rewrite <- app_assoc | progress simpl | f_equal]; reflexivity.
Qed.

(** Anchored at a bracketed pair, the pattern matches exactly that pair. *)
Lemma matchAt_complete (m d1 d2 post : Text) :
  bracketedPair m d1 d2 -> matchAt (m ++ post) = Some m.
Proof.
  intros (sp1 & sp2 & sp3 & sp4 & B1 & B2 & B3 & B4 & D1 & D2 & ->).
  rewrite bracketedPair_app. unfold matchAt. simpl.
  apply blanks_isSpace in B1, B3.
  pose proof (proj1 (blanks_isSpace sp2) B2) as S2.
  pose proof (proj1 (blanks_isSpace sp4) B4) as S4.
  rewrite (span_app isSpace sp1 _ B1)
    by (apply stops_digits; [exact D1 | intros c Hc; apply digit_plain, Hc]).
  rewrite (digits1_app d1 _ D1)
    by (apply stops_blanks_then; [exact B2 | reflexivity | reflexivity]).
  simpl.
  rewrite (span_app isSpace sp2 _ S2) by reflexivity.
  simpl.
  rewrite (span_app isSpace sp3 _ B3)
    by (apply stops_digits; [exact D2 | intros c Hc; apply digit_plain, Hc]).
  rewrite (digits1_app d2 _ D2)
    by (apply stops_blanks_then; [exact B4 | reflexivity | reflexivity]).
  simpl.
  rewrite (span_app isSpace sp4 _ S4) by reflexivity.
  reflexivity.
Qed.

(** What the pattern matches is a bracketed pair at the start of the
    text. *)
Lemma matchAt_sound (s m : Text) :
  matchAt s = Some m ->
  exists d1 d2 post, s = m ++ post /\ bracketedPair m d1 d2.
Proof.
  unfold matchAt.
  destruct (expect "[" s) as [s1|] eqn:E1; simpl; [|discriminate].
  destruct (span isSpace s1) as [sp1 s2] eqn:E2.
  destruct (digits1 s2) as [[d1 s3]|] eqn:E3; simpl; [|discriminate].
  destruct (span isSpace s3) as [sp2 s4] eqn:E4.
  destruct (expect "," s4) as [s5|] eqn:E5; simpl; [|discriminate].
  destruct (span isSpace s5) as [sp3 s6] eqn:E6.
  destruct (digits1 s6) as [[d2 s7]|] eqn:E7; simpl; [|discriminate].
  destruct (span isSpace s7) as [sp4 s8] eqn:E8.
  destruct (expect "]" s8) as [s9|] eqn:E9; simpl; [|discriminate].
  intros [= <-].
  apply expect_spec in E1, E5, E9.
  apply span_spec in E2, E4, E6, E8.
  apply digits1_spec in E3, E7.
  destruct E2 as (-> & B1 & _), E4 as (-> & B2 & _),
           E6 as (-> & B3 & _), E8 as (-> & B4 & _).
  destruct E3 as (-> & D1 & _), E7 as (-> & D2 & _).
  subst s s4 s8.
  exists d1, d2, s9. split.
  - rewrite bracketedPair_app. reflexivity.
  - exists sp1, sp2, sp3, sp4.
    rewrite !blanks_isSpace. tauto.
Qed.

Lemma search_unfold (s : Text) :
  search s =
  match matchAt s with
  | Some m => Some m
  | None => match s with [] => None | _ :: t => search t end
  end.
Proof. destruct s; reflexivity. Qed.

(** The search returns the first bracketed pair of the text. *)
Lemma search_first (raw m d1 d2 : Text) :
  firstBracketedPair raw m d1 d2 -> search raw = Some m.
Proof.
  intros (pre & (post & ->) & Hm & Hmin).
  induction pre as [|c pre IH].
  - rewrite search_unfold. simpl.
    rewrite (matchAt_complete m d1 d2 post Hm). reflexivity.
  - rewrite search_unfold.
    destruct (matchAt ((c :: pre) ++ m ++ post)) as [m'|] eqn:E.
    + exfalso. destruct (matchAt_sound _ _ E) as (d1' & d2' & post' & Es & Hm').
      assert (Ho : occurs ((c :: pre) ++ m ++ post) [] m')
        by (exists post'; exact Es).
      specialize (Hmin [] m' d1' d2' Ho Hm'). simpl in Hmin. lia.
    + simpl. apply IH. intros pre' m' d1' d2' (post' & Es) Hm'.
      assert (Ho : occurs ((c :: pre) ++ m ++ post) (c :: pre') m')
        by (exists post'; simpl; rewrite Es; reflexivity).
      specialize (Hmin (c :: pre') m' d1' d2' Ho Hm'). simpl in Hmin. lia.
Qed.

(** The search fails exactly on the texts without bracketed pair. *)
Lemma search_None (raw : Text) :
  search raw = None <-> noBracketedPair raw.
Proof.
  split.
  - intros Hs pre m d1 d2 (post & ->) Hm.
    induction pre as [|c pre IH]; rewrite search_unfold in Hs.
    + simpl in Hs. rewrite (matchAt_complete m d1 d2 post Hm) in Hs.
      discriminate Hs.
    + destruct (matchAt ((c :: pre) ++ m ++ post)); [discriminate Hs|].
      apply IH, Hs.
  - induction raw as [|c raw IH]; intros Hno; rewrite search_unfold.
    + reflexivity.
    + destruct (matchAt (c :: raw)) as [m|] eqn:E.
      * exfalso. destruct (matchAt_sound _ _ E) as (d1 & d2 & post & Es & Hm).
        apply (Hno [] m d1 d2); [exists post; exact Es | exact Hm].
      * apply IH. intros pre m d1 d2 (post & Es) Hm.
        apply (Hno (c :: pre) m d1 d2); [|exact Hm].
        exists post. simpl. rewrite Es. reflexivity.
Qed.

(** *** [JSON.parse] on a bracketed pair *)

Lemma terminated_blanks (sp : Text) (c : ascii) (r : Text) :
  blanks sp -> terminator c -> terminated (sp ++ c :: r).
Proof.
  intros Hsp Hc. destruct Hsp as [|x sp -> _]; simpl.
  - exists c, r. auto.
  - exists " "%char, (sp ++ c :: r). split; [reflexivity | left; reflexivity].
Qed.

Lemma canonical_zero (t : Text) :
  canonical ("0"%char :: t) = true -> t = [].
Proof. destruct t; [reflexivity | discriminate]. Qed.

(** An integer without superfluous zero is read whole. *)
Lemma parseNumber_integer (d r : Text) :
  digitString d -> canonical d = true -> terminated r ->
  parseNumber (d ++ r) = Some (numberOf (digitsValue d) 0, r).
Proof.
  intros Hd Hcan (x & r' & -> & Hx).
  destruct (terminator_plain x Hx) as (Xd & Xdot & Xe & XE).
  destruct (digitString_head d Hd) as (c & t & -> & Hc).
  destruct (digit_plain c Hc) as (_ & _ & _ & _ & _ & _ & _ & _ & _ & Cm & _).
  assert (Hint : parseInt ((c :: t) ++ x :: r') = Some (c :: t, x :: r')).
  { unfold parseInt. simpl. destruct (Ascii.eqb c "0") eqn:E0.
    - apply Ascii.eqb_eq in E0. subst c.
      rewrite (canonical_zero t Hcan). reflexivity.
    - apply (digits1_app (c :: t) (x :: r') Hd). exact Xd. }
  unfold parseNumber. simpl app at 1. cbv iota beta. rewrite Cm.
  cbv iota beta. change (c :: t ++ x :: r') with ((c :: t) ++ x :: r').
  rewrite Hint. simpl. rewrite Xdot. simpl. rewrite Xe, XE. simpl.
  rewrite app_nil_r. do 3 f_equal.
  destruct (digitsValue (c :: t)); reflexivity.
Qed.

Lemma digitValue_nonneg (c : ascii) : isDigit c = true -> 0 <= digitValue c.
Proof.
  intros H. apply isDigit_inv in H. simpl in H.
  repeat (destruct H as [<- | H]; [vm_compute; discriminate|]). destruct H.
Qed.

Lemma digitsValue_nonneg (d : Text) :
  Forall (fun c => isDigit c = true) d -> 0 <= digitsValue d.
Proof.
  unfold digitsValue. intros Hd.
  assert (G : forall acc, 0 <= acc ->
                0 <= fold_left (fun a c => 10 * a + digitValue c) d acc).
  { induction Hd as [|c d Hc _ IH]; intros acc Hacc; simpl; [exact Hacc|].
    apply IH. pose proof (digitValue_nonneg c Hc). lia. }
  apply G. lia.
Qed.

(** The integers up to 2^53 are held as they are written. *)
Lemma numberOf_integer (n : Z) :
  0 <= n <= 2 ^ 53 -> numberOf n 0 = Exact n.
Proof.
  intros Hn.
  assert (E : (Z.abs n <=? 2 ^ 53) = true) by (apply Z.leb_le; lia).
  unfold numberOf. simpl (0 <=? 0). cbv iota.
  rewrite Z.pow_0_r, Z.mul_1_r, E. reflexivity.
Qed.

Lemma numberOf_nonNegative (n : Z) :
  0 <= n -> nonNegative (numberOf n 0).
Proof.
  intros Hn. unfold numberOf. simpl (0 <=? 0). cbv iota.
  rewrite Z.pow_0_r, Z.mul_1_r.
  destruct (Z.abs n <=? 2 ^ 53); exact Hn.
Qed.

(** After a leading zero the number ends. *)
Lemma parseNumber_leading_zero (c : ascii) (r : Text) :
  isDigit c = true ->
  parseNumber ("0"%char :: c :: r) = Some (Exact 0, c :: r).
Proof.
  intros Hc.
  destruct (digit_plain c Hc)
    as (_ & _ & _ & _ & _ & _ & _ & _ & _ & _ & Cdot & Ce & CE & _).
  unfold parseNumber, parseInt. simpl. rewrite Cdot. simpl.
  rewrite Ce, CE. reflexivity.
Qed.

Lemma parseValue_array (n : nat) (r : Text) :
  parseValue (S n) ("["%char :: r) =
  match skip isJsonSpace r with
  | c1 :: r1 =>
      if Ascii.eqb c1 "]" then Some (JArray [], r1)
      else '(vs, r2) ← parseElements n (c1 :: r1); Some (JArray vs, r2)
  | [] => None
  end.
Proof. reflexivity. Qed.

Lemma parseElements_unfold (n : nat) (s : Text) :
  parseElements (S n) s =
  '(v, r) ← parseValue n s;
  match skip isJsonSpace r with
  | c :: r1 =>
      if Ascii.eqb c "]" then Some ([v], r1)
      else if Ascii.eqb c "," then
        '(vs, r2) ← parseElements n (skip isJsonSpace r1);
        Some (v :: vs, r2)
      else None
  | [] => None
  end.
Proof. reflexivity. Qed.

Lemma parseValue_digit (n : nat) (c : ascii) (t : Text) :
  isDigit c = true ->
  parseValue (S n) (c :: t) = '(x, r1) ← parseNumber (c :: t); Some (JNumber x, r1).
Proof.
  intros Hc.
  destruct (digit_plain c Hc)
    as (_ & _ & Cb & _ & Cc & Cq & Ct & Cf & Cn & _).
  simpl. rewrite Cb, Cc, Cq, Ct, Cf, Cn. reflexivity.
Qed.

Arguments parseValue : simpl never.
Arguments parseElements : simpl never.
Arguments parseMembers : simpl never.
Arguments parseNumber : simpl never.
Arguments numberOf : simpl never.

(** An integer as an element of an array. *)
Lemma parseValue_integer (n : nat) (d r : Text) :
  digitString d -> terminated r ->
  parseValue (S n) (d ++ r) =
  if canonical d then Some (JNumber (numberOf (digitsValue d) 0), r)
  else Some (JNumber (Exact 0), tail d ++ r).
Proof.
  intros Hd Hr.
  destruct (digitString_head d Hd) as (c & t & E & Hc).
  destruct (canonical d) eqn:Hcan.
  - subst d. simpl app. rewrite (parseValue_digit n c _ Hc).
    change (c :: t ++ r) with ((c :: t) ++ r).
    rewrite (parseNumber_integer (c :: t) r Hd Hcan Hr). reflexivity.
  - subst d. destruct t as [|c' t]; [discriminate|].
    simpl in Hcan. apply negb_false_iff, Ascii.eqb_eq in Hcan. subst c.
    destruct Hd as [_ Hd]. apply Forall_cons in Hd as [_ Hd'].
    apply Forall_cons in Hd' as [Hc' _].
    simpl app. rewrite (parseValue_digit n _ _ Hc).
    rewrite (parseNumber_leading_zero c' (t ++ r) Hc'). reflexivity.
Qed.

(** The rest of a number with a superfluous zero is no separator. *)
Lemma skip_tail_digit (d r : Text) :
  digitString d -> canonical d = false ->
  exists c t, skip isJsonSpace (tail d ++ r) = c :: t
              /\ Ascii.eqb c "]" = false /\ Ascii.eqb c "," = false.
Proof.
  intros [Hne Hd] Hcan. destruct d as [|c0 [|c t]]; [congruence | discriminate |].
  apply Forall_cons in Hd as [_ Hd']. apply Forall_cons in Hd' as [Hc _].
  destruct (digit_plain c Hc)
    as (_ & Cj & _ & Cb & _ & _ & _ & _ & _ & _ & _ & _ & _ & Cc).
  exists c, (t ++ r). simpl tail. simpl app.
  rewrite skip_stops by exact Cj. auto.
Qed.

(** The elements of an array that ends with the integer [d]. *)
Lemma parseElements_last (n : nat) (d sp : Text) :
  digitString d -> blanks sp ->
  parseElements (S (S n)) (d ++ sp ++ ["]"%char]) =
  if canonical d then Some ([JNumber (numberOf (digitsValue d) 0)], [])
  else None.
Proof.
  intros Hd Hsp.
  rewrite parseElements_unfold.
  rewrite (parseValue_integer n d _ Hd)
    by (apply terminated_blanks; [exact Hsp | right; right; reflexivity]).
  destruct (canonical d) eqn:Hcan; simpl.
  - rewrite (skip_app isJsonSpace sp _ (blanks_isJsonSpace sp Hsp))
      by reflexivity.
    reflexivity.
  - destruct (skip_tail_digit d (sp ++ ["]"%char]) Hd Hcan)
      as (c & t & -> & Cb & Cc).
    rewrite Cb, Cc. reflexivity.
Qed.

(** The elements of an array of the integers [d1] and [d2]. *)
Lemma parseElements_pair (n : nat) (d1 sp2 sp3 d2 sp4 : Text) :
  digitString d1 -> digitString d2 ->
  blanks sp2 -> blanks sp3 -> blanks sp4 ->
  parseElements (S (S (S n)))
                (d1 ++ sp2 ++ ","%char :: sp3 ++ d2 ++ sp4 ++ ["]"%char]) =
  if canonical d1 && canonical d2
  then Some ([JNumber (numberOf (digitsValue d1) 0);
              JNumber (numberOf (digitsValue d2) 0)], [])
  else None.
Proof.
  intros D1 D2 B2 B3 B4.
  rewrite parseElements_unfold.
  rewrite (parseValue_integer (S n) d1 _ D1)
    by (apply terminated_blanks; [exact B2 | right; left; reflexivity]).
  destruct (canonical d1) eqn:Hcan1; simpl.
  - rewrite (skip_app isJsonSpace sp2 _ (blanks_isJsonSpace sp2 B2))
      by reflexivity.
    simpl.
    rewrite (skip_app isJsonSpace sp3 _ (blanks_isJsonSpace sp3 B3))
      by (apply stops_digits; [exact D2 | intros c Hc; apply digit_plain, Hc]).
    rewrite (parseElements_last n d2 sp4 D2 B4).
    destruct (canonical d2); reflexivity.
  - destruct (skip_tail_digit
                d1 (sp2 ++ ","%char :: sp3 ++ d2 ++ sp4 ++ ["]"%char]) D1 Hcan1)
      as (c & t & -> & Cb & Cc).
    rewrite Cb, Cc. reflexivity.
Qed.

(** [JSON.parse] reads a bracketed pair as the array of its two integers,
    and rejects it when one of them has a superfluous leading zero. *)
Lemma JSON_parse_pair (m d1 d2 : Text) :
  bracketedPair m d1 d2 ->
  JSON_parse m = if canonical d1 && canonical d2 then Some (pairOf d1 d2) else None.
Proof.
  intros (sp1 & sp2 & sp3 & sp4 & B1 & B2 & B3 & B4 & D1 & D2 & ->).
  unfold JSON_parse.
  remember (2 * length ("["%char :: sp1 ++ d1 ++ sp2 ++ ","%char
                          :: sp3 ++ d2 ++ sp4 ++ ["]"%char]) + 2)%nat as n eqn:En.
  assert (Hn : exists k, n = S (S (S (S k)))).
  { simpl length in En. exists (n - 4)%nat. lia. }
  destruct Hn as [k ->]. clear En.
  rewrite skip_stops by reflexivity.
  rewrite parseValue_array.
  rewrite (skip_app isJsonSpace sp1 _ (blanks_isJsonSpace sp1 B1))
    by (apply stops_digits; [exact D1 | intros c Hc; apply digit_plain, Hc]).
  destruct (digitString_head d1 D1) as (c1 & t1 & E1 & Hc1).
  destruct (digit_plain c1 Hc1) as (_ & _ & _ & Cb & _).
  pose proof (parseElements_pair k d1 sp2 sp3 d2 sp4 D1 D2 B2 B3 B4) as HP.
  subst d1. cbn [app] in HP |- *. rewrite Cb, HP. unfold pairOf.
  destruct (canonical (c1 :: t1) && canonical d2); reflexivity.
Qed.

(** What the search returns is a first bracketed pair of the text. *)
Lemma search_Some_first (raw m d1 d2 : Text) :
  search raw = Some m -> bracketedPair m d1 d2 ->
  firstBracketedPair raw m d1 d2.
Proof.
  intros Hs Hm.
  assert (H : exists pre,
             occurs raw pre m
             /\ forall pre' m' d1' d2',
                 occurs raw pre' m' -> bracketedPair m' d1' d2' ->
                 (length pre <= length pre')%nat).
  { clear Hm. induction raw as [|c raw IH]; rewrite search_unfold in Hs.
    - destruct (matchAt []) as [m'|] eqn:E; [|discriminate Hs].
      injection Hs as ->.
      destruct (matchAt_sound _ _ E) as (_ & _ & post & Es & _).
      exists []. split; [exists post; exact Es | intros; simpl; lia].
    - destruct (matchAt (c :: raw)) as [m'|] eqn:E.
      + injection Hs as ->.
        destruct (matchAt_sound _ _ E) as (_ & _ & post & Es & _).
        exists []. split; [exists post; exact Es | intros; simpl; lia].
      + destruct (IH Hs) as (pre & (post & Es) & Hmin).
        exists (c :: pre). split.
        * exists post. simpl. rewrite Es. reflexivity.
        * intros pre' m' d1' d2' (post' & Es') Hm'.
          destruct pre' as [|c' pre'].
          -- simpl in Es'. rewrite Es' in E.
             rewrite (matchAt_complete m' d1' d2' post' Hm') in E.
             discriminate E.
          -- simpl in Es'. injection Es' as _ Es'.
             assert (Ho : occurs raw pre' m') by (exists post'; exact Es').
             specialize (Hmin pre' m' d1' d2' Ho Hm'). simpl. lia. }
  destruct H as (pre & Ho & Hmin). exists pre. auto.
Qed.

(** C8, as the code has it.  The parser trims the answer and looks for
    the first substring made of a bracket, two runs of digits separated by
    a comma, and a closing bracket, with optional blanks around the
    integers.  When there is one and one of its integers has a superfluous
    leading zero, the result is [null]; when neither has one and both are
    at most 2^53, the integers that a JavaScript number holds as written,
    the result is the pair of the two integers.  When there is none and the
    trimmed answer does not start with a bracket, the result is [null].
    The answer "Sure! [1, 2] is my move." gives the pair (1, 2), the answer
    "invalid" gives [null]. *)
Theorem parseContent_first_pair (content : Text) :
  (forall m d1 d2,
      firstBracketedPair (trim content) m d1 d2 ->
      canonical d1 && canonical d2 = false ->
      parseContent content = None)
  /\ (forall m d1 d2,
      firstBracketedPair (trim content) m d1 d2 ->
      canonical d1 && canonical d2 = true ->
      digitsValue d1 <= 2 ^ 53 -> digitsValue d2 <= 2 ^ 53 ->
      parseContent content = Some (integerPair (digitsValue d1) (digitsValue d2)))
  /\ (noBracketedPair (trim content) ->
      startsWithBracket (trim content) = false ->
      parseContent content = None)
  /\ parseContent (text "Sure! [1, 2] is my move.") = Some (integerPair 1 2)
  /\ parseContent (text "invalid") = None.
Proof.
  refine (conj _ (conj _ (conj _ (conj _ _)))).
  - intros m d1 d2 Hfirst Hcan. unfold parseContent.
    rewrite (search_first _ m d1 d2 Hfirst).
    destruct Hfirst as (_ & _ & Hm & _).
    rewrite (JSON_parse_pair m d1 d2 Hm), Hcan. reflexivity.
  - intros m d1 d2 Hfirst Hcan H1 H2. unfold parseContent.
    rewrite (search_first _ m d1 d2 Hfirst).
    destruct Hfirst as (_ & _ & Hm & _).
    rewrite (JSON_parse_pair m d1 d2 Hm), Hcan.
    destruct Hm as (_ & _ & _ & _ & _ & _ & _ & _ & D1 & D2 & _).
    unfold pairOf, integerPair.
    rewrite (numberOf_integer (digitsValue d1))
      by (split; [apply digitsValue_nonneg, (proj2 D1) | exact H1]).
    rewrite (numberOf_integer (digitsValue d2))
      by (split; [apply digitsValue_nonneg, (proj2 D2) | exact H2]).
    reflexivity.
  - intros Hno Hb. unfold parseContent.
    rewrite (proj2 (search_None _) Hno), Hb. reflexivity.
  - vm_compute. reflexivity.
  - vm_compute. reflexivity.
Qed.

Lemma parseContent_first_pair_witness :
  parseContent (text "My move: [ 2 ,0] (or [1,1])")
  = Some (integerPair (digitsValue (text "2")) (digitsValue (text "0"))).
Proof.
  refine (proj1 (proj2 (parseContent_first_pair
                          (text "My move: [ 2 ,0] (or [1,1])")))
                (text "[ 2 ,0]") (text "2") (text "0") _ _ _ _).
  - apply search_Some_first; [vm_compute; reflexivity|].
    exists (text " "), (text " "), [], [].
    repeat split; try discriminate; repeat constructor.
  - reflexivity.
  - vm_compute. discriminate.
  - vm_compute. discriminate.
Defined.

(** C8 as stated fails: the answer "[01, 2]" is a bracketed pair of
    integers, the search finds it, and [JSON.parse] rejects the superfluous
    zero; the [catch] of the parser turns that into [null], so no pair is
    returned. *)
Lemma parseContent_leading_zero :
  firstBracketedPair (trim (text "[01, 2]")) (text "[01, 2]") (text "01") (text "2")
  /\ parseContent (text "[01, 2]") = None
  /\ parseContent (text "[01, 2]") <> Some (integerPair 1 2).
Proof.
  split; [|split; [vm_compute; reflexivity | vm_compute; discriminate]].
  apply search_Some_first; [vm_compute; reflexivity|].
  exists [], [], (text " "), [].
  repeat split; try discriminate; repeat constructor.
Qed.

(** Where the trimmed answer has no bracketed pair and starts with a
    bracket, the parser hands the whole of it to [JSON.parse]: the answer
    "[1,2,3]" gives an array of three numbers. *)
Lemma parseContent_unmatched_array :
  noBracketedPair (trim (text "[1,2,3]"))
  /\ parseContent (text "[1,2,3]")
     = Some (JArray [JNumber (Exact 1); JNumber (Exact 2); JNumber (Exact 3)]).
Proof.
  split; [apply search_None; vm_compute; reflexivity | vm_compute; reflexivity].
Qed.

(** ** The computer's turn *)

(** The cell [(i, j)] of a board given by its nine cells is what the
    fallback selector returns, and it is a legal move. *)
Ltac fallback_is i j :=
  exists (i, j);
  split; [reflexivity|];
  unfold legalMove, isEmptyAt, inRange; simpl;
  repeat split; first [lia | reflexivity].

(** While the game is on, the fallback selector finds an Empty cell. *)
Lemma findBestMove_in_progress (b : Board) :
  wf_board b -> calculateWinner b = None ->
  exists m, findBestMove b = Some m /\ legalMove b m.
Proof.
  intros Hwf Hw.
  destruct (wf_board_inv b Hwf) as (c00&c01&c02&c10&c11&c12&c20&c21&c22&->).
  destruct c00; [|fallback_is 0 0].
  destruct c01; [|fallback_is 0 1].
  destruct c02; [|fallback_is 0 2].
  destruct c10; [|fallback_is 1 0].
  destruct c11; [|fallback_is 1 1].
  destruct c12; [|fallback_is 1 2].
  destruct c20; [|fallback_is 2 0].
  destruct c21; [|fallback_is 2 1].
  destruct c22; [|fallback_is 2 2].
  exfalso. unfold calculateWinner in Hw.
  destruct (scanLines _ lines); [discriminate Hw|].
  simpl in Hw. discriminate Hw.
Qed.

Arguments handleCellClick : simpl never.
Arguments playFallback : simpl never.

(** A move of the computer passes the third test of the guard. *)
Lemma accepted_computer (row col : Z) (s : State) :
  calculateWinner (board s) = None ->
  readCell (board s) row col = Some None ->
  accepted row col true s.
Proof.
  intros Hw Hc. split; [exact Hw|]. split; [exact Hc|].
  apply andb_false_r.
Qed.

(** While the game is on, the fallback plays the move the selector
    returns, a legal one. *)
Lemma playFallback_in_progress (s : State) :
  wf_board (board s) -> calculateWinner (board s) = None ->
  exists m, findBestMove (board s) = Some m
            /\ legalMove (board s) m
            /\ playFallback s = (Normal tt, afterMove (fst m) (snd m) s).
Proof.
  intros Hwf Hw.
  destruct (findBestMove_in_progress (board s) Hwf Hw) as ([i j] & Hm & Hl).
  exists (i, j). split; [exact Hm|]. split; [exact Hl|].
  unfold playFallback, bind, get. rewrite Hm. cbn [fst snd].
  apply handleCellClick_accepted, accepted_computer; [exact Hw|].
  destruct Hl as (Hi & Hj & He). simpl in Hi, Hj, He.
  rewrite (readCell_wf _ _ _ Hwf Hi Hj), He. reflexivity.
Qed.

(** What [doAIMove] does with a suggested pair [[r, c]] while the game
    is on: a legal suggestion is played; a suggestion aimed at a marked
    cell or at a row outside the grid is replaced by the fallback move;
    a suggestion aimed at a column outside the grid, in a row of the
    grid, is recorded as a move although it places no mark. *)
Lemma doAIMove_suggested_pair (r c : Z) (s : State) :
  wf_board (board s) -> calculateWinner (board s) = None ->
  (legalMove (board s) (r, c) ->
   sameGame (exec (doAIMove true (Resolved (Some [r; c]))) s) (afterMove r c s))
  /\ (cellAt (board s) r c <> None \/ ~ inRange r ->
      exists m, findBestMove (board s) = Some m
                /\ legalMove (board s) m
                /\ sameGame (exec (doAIMove true (Resolved (Some [r; c]))) s)
                            (afterMove (fst m) (snd m) s))
  /\ (inRange r -> ~ inRange c ->
      ~ legalMove (board s) (r, c)
      /\ sameGame (exec (doAIMove true (Resolved (Some [r; c]))) s)
                  (afterMove r c s)
      /\ board (exec (doAIMove true (Resolved (Some [r; c]))) s) = board s).
Proof.
  intros Hwf Hw.
  assert (Hplay : forall s1 : State,
             readCell (board s) r c = Some None ->
             board s1 = board s -> mode s1 = mode s -> isXNext s1 = isXNext s ->
             handleCellClick r c true s1 = (Normal tt, afterMove r c s1)).
  { intros s1 Hc Eb Em Ex. apply handleCellClick_accepted, accepted_computer;
      rewrite Eb; assumption. }
  assert (Hfall : forall s1 : State,
             board s1 = board s ->
             exists m, findBestMove (board s) = Some m
                       /\ legalMove (board s) m
                       /\ playFallback s1
                          = (Normal tt, afterMove (fst m) (snd m) s1)).
  { intros s1 Eb. rewrite <- Eb in Hwf, Hw.
    destruct (playFallback_in_progress s1 Hwf Hw) as (m & Hm & Hl & Hp).
    rewrite Eb in Hm, Hl. eauto. }
  refine (conj _ (conj _ _)).
  - intros (Hr & Hc & He). simpl in Hr, Hc, He.
    assert (Hread : readCell (board s) r c = Some None)
      by (rewrite (readCell_wf _ _ _ Hwf Hr Hc), He; reflexivity).
    unfold exec, doAIMove, bind, get, tryCatch, setAiThinking, setError.
    simpl. rewrite Hread. simpl.
    rewrite (Hplay _ Hread) by reflexivity.
    repeat split; reflexivity.
  - intros Hbad.
    unfold exec, doAIMove, bind, get, tryCatch, setAiThinking, setError.
    simpl.
    destruct (readCell (board s) r c) as [[p|]|] eqn:Hread; simpl.
    + match goal with
      | |- context [playFallback ?s1] =>
          destruct (Hfall s1 eq_refl) as (m & Hm & Hl & ->)
      end.
      exists m. split; [exact Hm|]. split; [exact Hl|].
      repeat split; reflexivity.
    + exfalso. destruct Hbad as [Hocc | Hrow].
      * apply Hocc. unfold cellAt. rewrite Hread. reflexivity.
      * apply Hrow. unfold readCell in Hread.
        destruct (idx (board s) r) as [rw|] eqn:Er; [|discriminate].
        apply idx_Some_lt in Er. destruct Hwf as [Hlen _].
        unfold inRange. lia.
    + match goal with
      | |- context [playFallback ?s1] =>
          destruct (Hfall s1 eq_refl) as (m & Hm & Hl & ->)
      end.
      exists m. split; [exact Hm|]. split; [exact Hl|].
      repeat split; reflexivity.
  - intros Hr Hc.
    assert (Hread : readCell (board s) r c = Some None).
    { unfold readCell.
      destruct (idx_lt_Some (board s) r) as [rw Hrw].
      { destruct Hwf as [Hlen _]. unfold inRange in Hr. lia. }
      rewrite Hrw. rewrite idx_None; [reflexivity|].
      destruct Hwf as [_ Hrows]. rewrite Forall_forall in Hrows.
      unfold idx in Hrw. case_decide; [|discriminate].
      rewrite (Hrows rw) by (apply list_elem_of_lookup; eauto).
      unfold inRange in Hc. lia. }
    split; [intros (_ & Hc' & _); apply Hc, Hc'|].
    unfold exec, doAIMove, bind, get, tryCatch, setAiThinking, setError.
    simpl. rewrite Hread. simpl.
    rewrite (Hplay _ Hread) by reflexivity. simpl.
    split; [repeat split; reflexivity|].
    apply placeMark_outside; [exact Hwf | tauto].
Qed.

(** The check of [doAIMove] on a pair whose column is outside the grid,
    were the request to deliver one: after X has played (0,0), the pair
    [[0, 5]] is recorded as O's move and the turn passes back to X while
    the board stays as it was.  ([computerTurn] shows that no pair reaches
    the check on the client of the component.) *)
Lemma doAIMove_column_out_of_range :
  aiTurn (run [ModeChange pvc; Click 0 0 false] initialState) = true
  /\ ~ legalMove (board (run [ModeChange pvc; Click 0 0 false] initialState)) (0, 5)
  /\ findBestMove (board (run [ModeChange pvc; Click 0 0 false] initialState))
     = Some (0, 1)
  /\ raised (doAIMove true (Resolved (Some [0; 5])))
            (run [ModeChange pvc; Click 0 0 false] initialState) = false
  /\ board (exec (doAIMove true (Resolved (Some [0; 5])))
                 (run [ModeChange pvc; Click 0 0 false] initialState))
     = [[Some X; None; None]; [None; None; None]; [None; None; None]]
  /\ history (exec (doAIMove true (Resolved (Some [0; 5])))
                   (run [ModeChange pvc; Click 0 0 false] initialState))
     = history (run [ModeChange pvc; Click 0 0 false] initialState)
       ++ [ {| entry_board :=
                 [[Some X; None; None]; [None; None; None]; [None; None; None]];
               entry_move := Some (0, 5);
               entry_player := Some O |} ]
  /\ isXNext (exec (doAIMove true (Resolved (Some [0; 5])))
                   (run [ModeChange pvc; Click 0 0 false] initialState))
     = true.
Proof.
  split; [reflexivity|].
  split; [intros (_ & Hc & _); unfold inRange in Hc; simpl in Hc; lia|].
  repeat split; vm_compute; reflexivity.
Qed.

(** ** Further properties of the game *)

(** *** What every session keeps *)

Lemma calculateWinner_None_noLine (b : Board) :
  calculateWinner b = None -> noLine b lines.
Proof.
  unfold calculateWinner. intros H. apply scanLines_None.
  destruct (scanLines b lines); [discriminate H | reflexivity].
Qed.

(** A cell of the new board holds what it held, or the mark just placed
    in the targeted cell. *)
Lemma cellAt_placeMark_inv (b : Board) (row col : Z) (p q : Player) (r c : Z) :
  cellAt (placeMark b row col p) r c = Some q ->
  cellAt b r c = Some q \/ ((r, c) = (row, col) /\ q = p).
Proof.
  unfold cellAt. rewrite readCell_placeMark. unfold readCell.
  destruct (idx b r) as [rw|]; simpl; [|discriminate].
  destruct (idx rw c) as [cell|]; simpl; [|discriminate].
  repeat case_bool_decide; simpl; auto.
  intros [= <-]. right. subst. auto.
Qed.

Lemma accepted_cell_empty (row col : Z) (cm : bool) (s : State) :
  accepted row col cm s -> cellAt (board s) row col = None.
Proof. intros (_ & Hc & _). unfold cellAt. rewrite Hc. reflexivity. Qed.

(** A line of the player who did not move was there before the move. *)
Lemma lineComplete_before_move (b : Board) (row col : Z) (p q : Player) (l : Line) :
  q <> p ->
  lineComplete (placeMark b row col p) q l -> lineComplete b q l.
Proof.
  intros Hne. destruct l as [[[r1 c1] [r2 c2]] [r3 c3]]. unfold lineComplete.
  intros (H1 & H2 & H3).
  apply cellAt_placeMark_inv in H1, H2, H3.
  destruct H1 as [H1 | [_ H1]]; [|congruence].
  destruct H2 as [H2 | [_ H2]]; [|congruence].
  destruct H3 as [H3 | [_ H3]]; [|congruence].
  auto.
Qed.

Lemma oneWinner_after_move (b : Board) (row col : Z) (p : Player) :
  noLine b lines -> oneWinner (placeMark b row col p).
Proof.
  intros Hno l1 l2 Hl1 Hl2 [HX HO]. destruct p.
  - apply (Hno l2 O Hl2).
    apply (lineComplete_before_move b row col X O l2); [discriminate | exact HO].
  - apply (Hno l1 X Hl1).
    apply (lineComplete_before_move b row col O X l1); [discriminate | exact HX].
Qed.

Lemma oneWinner_empty : oneWinner createEmptyBoard.
Proof.
  intros l1 l2 Hl1 _ [HX _].
  destruct l1 as [[[r1 c1] [r2 c2]] [r3 c3]]. destruct HX as (H1 & _).
  simpl in Hl1.
  repeat (destruct Hl1 as [Hl1 | Hl1];
          [injection Hl1 as <- <- <- <- <- <-; discriminate H1|]).
  destruct Hl1.
Qed.

Section BoardInvariants.

(** A property of boards that the empty board has and that an accepted
    move keeps. *)
Variable Q : Board -> Prop.

Hypothesis Q_empty : Q createEmptyBoard.

Hypothesis Q_move :
  forall row col cm s,
    Q (board s) -> accepted row col cm s ->
    Q (placeMark (board s) row col (playerOf (isXNext s))).

(** Then the board shown and every recorded board of a session have it. *)
Lemma reachable_boards (s : State) :
  reachable s ->
  Q (board s) /\ Forall (fun e => Q (entry_board e)) (history s).
Proof.
  intros [evs ->].
  apply (preserves_run
           (fun s => Q (board s) /\ Forall (fun e => Q (entry_board e)) (history s)))
    with (allowed := fun _ => True).
  - intros s st wl er ai Hs. exact Hs.
  - intros row col cm s [Hb Hh] Hacc. split; simpl.
    + apply (Q_move row col cm s Hb Hacc).
    + apply Forall_app. split.
      * unfold slice0. apply Forall_take, Hh.
      * constructor; [|constructor]. simpl. apply (Q_move row col cm s Hb Hacc).
  - intros m st wl er ai. split; simpl; [exact Q_empty|].
    constructor; [exact Q_empty | constructor].
  - intros k _ s [Hb Hh]. unfold exec.
    destruct (idx (history s) k) as [e|] eqn:He.
    + rewrite (jumpTo_Some k s e He). split; simpl; [|exact Hh].
      rewrite Forall_forall in Hh. apply Hh.
      unfold idx in He. case_decide; [|discriminate].
      apply list_elem_of_lookup. eauto.
    + rewrite (jumpTo_None k s He). split; assumption.
  - apply Forall_forall. intros; exact I.
  - split; simpl; [exact Q_empty|].
    constructor; [exact Q_empty | constructor].
Qed.

End BoardInvariants.

(** X1.  Whatever the events of a session, also jumps that raise and
    answers of the service that are no legal move, no board of the session,
    shown or recorded, has a complete line of X together with a complete
    line of O: a move is accepted only while no line is complete, and it
    can complete lines of the mover only. *)
Theorem session_has_one_winner (s : State) (Hreach : reachable s) :
  oneWinner (board s)
  /\ forall e, In e (history s) -> oneWinner (entry_board e).
Proof.
  destruct (reachable_boards oneWinner oneWinner_empty) with (s := s)
    as [Hb Hh]; [|exact Hreach|].
  - intros row col cm s' _ Hacc. apply oneWinner_after_move.
    apply calculateWinner_None_noLine. apply Hacc.
  - split; [exact Hb|]. intros e He. rewrite Forall_forall in Hh.
    apply Hh, list_elem_of_In, He.
Qed.

Lemma session_has_one_winner_witness :
  oneWinner
    (board (run [Click 0 0 false; Click 1 1 false; Click 0 1 false;
                 Click 2 2 false; Click 0 2 false; Click 2 0 false]
                initialState)).
Proof.
  refine (proj1 (session_has_one_winner _ _)).
  exists [Click 0 0 false; Click 1 1 false; Click 0 1 false;
          Click 2 2 false; Click 0 2 false; Click 2 0 false].
  reflexivity.
Defined.

(** X2.  Once the game is over (won or drawn), a click on any cell, by
    the human or for the computer, leaves the whole state as it is, and the
    computer's turn, whatever the client and its answer, changes neither
    the board, the turn, the history, the current position nor the mode. *)
Theorem game_over_blocks_moves
        (s : State) (Hover : calculateWinner (board s) <> None) :
  (forall row col computerMove,
      exec (handleCellClick row col computerMove) s = s)
  /\ (forall openai answer, sameGame (exec (doAIMove openai answer) s) s).
Proof.
  split.
  - intros row col cm. apply handleCellClick_rejected.
    intros (Hw & _). contradiction.
  - intros openai answer.
    apply (preserves_doAIMove (fun s' => sameGame s' s)).
    + intros s' st wl er ai Hs'. exact Hs'.
    + intros row col cm s' (Hb & _) (Hw & _). rewrite Hb in Hw. contradiction.
    + repeat split; reflexivity.
Qed.

Lemma game_over_blocks_moves_witness :
  sameGame
    (exec (doAIMove false Rejected)
          (run [ModeChange pvc; Click 0 0 false; Click 1 0 true; Click 0 1 false;
                Click 1 1 true; Click 0 2 false] initialState))
    (run [ModeChange pvc; Click 0 0 false; Click 1 0 true; Click 0 1 false;
          Click 1 1 true; Click 0 2 false] initialState).
Proof.
  refine (proj2 (game_over_blocks_moves _ _) false Rejected).
  vm_compute. discriminate.
Defined.

(** X3.  A move never erases or replaces a mark: every cell that holds a
    mark before a click or a computer's turn holds the same mark after
    it, whatever the arguments and whatever the service answers. *)
Theorem moves_keep_marks (s : State) (r c : Z) (p : Player)
        (Hmark : cellAt (board s) r c = Some p) :
  (forall row col computerMove,
      cellAt (board (exec (handleCellClick row col computerMove) s)) r c = Some p)
  /\ (forall openai answer,
         cellAt (board (exec (doAIMove openai answer) s)) r c = Some p).
Proof.
  assert (Hmove : forall row col cm s',
             cellAt (board s') r c = Some p -> accepted row col cm s' ->
             cellAt (board (afterMove row col s')) r c = Some p).
  { intros row col cm s' Hs' Hacc. simpl.
    rewrite cellAt_placeMark_other; [exact Hs'|].
    intros [= -> ->]. rewrite (accepted_cell_empty _ _ _ _ Hacc) in Hs'.
    discriminate Hs'. }
  split.
  - intros row col cm.
    apply (preserves_handleCellClick (fun s' => cellAt (board s') r c = Some p));
      [exact Hmove | exact Hmark].
  - intros openai answer.
    apply (preserves_doAIMove (fun s' => cellAt (board s') r c = Some p)).
    + intros s' st wl er ai Hs'. exact Hs'.
    + exact Hmove.
    + exact Hmark.
Qed.

Lemma moves_keep_marks_witness :
  cellAt (board (exec (doAIMove true (Resolved (Some [0; 0])))
                      (run [ModeChange pvc; Click 0 0 false] initialState)))
         0 0
  = Some X.
Proof.
  refine (proj2 (moves_keep_marks
                   (run [ModeChange pvc; Click 0 0 false] initialState)
                   0 0 X _)
                true (Resolved (Some [0; 0]))).
  reflexivity.
Defined.

(** *** The move list *)

Lemma Forall_tail_take_app {A : Type} (Q : A -> Prop) (k : nat) (l : list A) (x : A) :
  Forall Q (tail l) -> Q x -> Forall Q (tail (take k l ++ [x])).
Proof.
  intros Hl Hx. destruct l as [|a l]; destruct k as [|k]; simpl;
    try constructor.
  apply Forall_app. split; [apply Forall_take, Hl|].
  constructor; [exact Hx | constructor].
Qed.

(** Every entry after the first records a move, whatever the events. *)
Lemma reachable_moves_recorded (s : State) :
  reachable s -> Forall hasMove (tail (history s)).
Proof.
  intros [evs ->].
  apply (preserves_run (fun s => Forall hasMove (tail (history s))))
    with (allowed := fun _ => True).
  - intros s st wl er ai Hs. exact Hs.
  - intros row col cm s Hs _. simpl. unfold slice0.
    apply Forall_tail_take_app; [exact Hs|]. unfold hasMove. simpl. eauto.
  - intros m st wl er ai. simpl. constructor.
  - intros k _ s Hs. unfold exec.
    destruct (idx (history s) k) as [e|] eqn:He.
    + rewrite (jumpTo_Some k s e He). exact Hs.
    + rewrite (jumpTo_None k s He). exact Hs.
  - apply Forall_forall. intros; exact I.
  - simpl. constructor.
Qed.

(** The entries rendered from a position that is not the first. *)
Lemma renderEntries_moves (s : State) (items : list Entry) (k : nat) :
  Forall hasMove items ->
  exists buttons,
    renderEntries s (S k) items = Some buttons
    /\ length buttons = length items
    /\ forall i b,
        buttons !! i = Some b ->
        mb_target b = Z.of_nat (S k + i)
        /\ mb_selected b = bool_decide (Z.of_nat (S k + i) = step s).
Proof.
  intros Hall. revert k.
  induction Hall as [|item items [[r c] Hm] _ IH]; intros k.
  - exists []. split; [reflexivity|]. split; [reflexivity|].
    intros i b Hb. discriminate Hb.
  - destruct (IH (S k)) as (buttons & Hr & Hlen & Hb).
    simpl. unfold describe.
    rewrite (bool_decide_eq_false_2 (S k = 0%nat)) by lia.
    rewrite Hm. simpl. rewrite Hr. simpl.
    eexists. split; [reflexivity|]. split; [simpl; congruence|].
    intros [|i] b Hi; simpl in Hi.
    + injection Hi as <-. simpl. rewrite Nat.add_0_r. auto.
    + destruct (Hb i b Hi) as [Ht Hs]. rewrite Ht, Hs.
      assert (E : (S (S k) + i = S k + S i)%nat) by lia.
      rewrite E. split; reflexivity.
Qed.

(** X4.  In every state of a session, also after jumps that raise,
    rendering the move list raises no error; it yields one button per
    entry of the history, the first labelled "Game start"; the button at
    position [i] jumps to [i], a valid index, and is the selected one
    exactly when [i] is the current position. *)
Theorem renderMoveHistory_total (s : State) (Hreach : reachable s) :
  exists buttons,
    renderMoveHistory s = Some buttons
    /\ length buttons = length (history s)
    /\ (forall b, buttons !! 0%nat = Some b -> mb_label b = "Game start"%string)
    /\ forall i b,
        buttons !! i = Some b ->
        mb_target b = Z.of_nat i
        /\ validIndex s (mb_target b)
        /\ (mb_selected b = true <-> step s = Z.of_nat i).
Proof.
  pose proof (reachable_moves_recorded s Hreach) as Hmoves.
  unfold renderMoveHistory, validIndex.
  destruct (history s) as [|e0 rest].
  - exists []. split; [reflexivity|]. split; [reflexivity|].
    split; intros; discriminate.
  - simpl in Hmoves.
    destruct (renderEntries_moves s rest 0 Hmoves) as (buttons & Hr & Hlen & Hb).
    simpl. rewrite Hr. simpl. eexists. split; [reflexivity|].
    split; [simpl; congruence|]. split.
    + intros b [= <-]. reflexivity.
    + intros [|i] b Hi; simpl in Hi.
      * injection Hi as <-. simpl. split; [reflexivity|]. split; [lia|].
        rewrite bool_decide_eq_true. split; intros; lia.
      * destruct (Hb i b Hi) as [Ht Hs]. apply lookup_lt_Some in Hi.
        rewrite Ht, Hs. simpl length.
        split; [reflexivity|]. split; [lia|].
        rewrite bool_decide_eq_true. split; intros; lia.
Qed.

Lemma renderMoveHistory_total_witness :
  exists buttons,
    renderMoveHistory (run [Click 1 1 false; Jump (-1); Click 0 0 false;
                            Click 2 2 false; Jump 9] initialState)
    = Some buttons
    /\ length buttons = 2%nat.
Proof.
  destruct (renderMoveHistory_total
              (run [Click 1 1 false; Jump (-1); Click 0 0 false;
                    Click 2 2 false; Jump 9] initialState))
    as (buttons & Hr & Hlen & _).
  - exists [Click 1 1 false; Jump (-1); Click 0 0 false; Click 2 2 false; Jump 9].
    reflexivity.
  - exists buttons. split; [exact Hr | exact Hlen].
Defined.

(** *** Sessions driven through the interface *)

Lemma run_snoc (evs : list Event) (e : Event) (s : State) :
  run (evs ++ [e]) s = exec (handle e) (run evs s).
Proof. unfold run. rewrite fold_left_app. reflexivity. Qed.

Lemma reachable_handle (e : Event) (s : State) :
  reachable s -> reachable (exec (handle e) s).
Proof.
  intros [evs ->]. exists (evs ++ [e]). rewrite run_snoc. reflexivity.
Qed.

Lemma uiSession_reachable (client : bool) (s : State) :
  uiSession client s -> reachable s.
Proof.
  induction 1 as [|s row col _ IH _ _|s k _ IH _|s _ IH|s v _ IH
                  |s answer _ IH _|s _ IH];
    [exists []; reflexivity | | | | | |]; destruct IH as [evs ->].
  - exists (evs ++ [Click row col false]). rewrite run_snoc. reflexivity.
  - exists (evs ++ [Jump k]). rewrite run_snoc. reflexivity.
  - exists (evs ++ [Reset]). rewrite run_snoc. cbn [handle]. reflexivity.
  - exists (evs ++ [ModeChange v]). rewrite run_snoc. cbn [handle]. reflexivity.
  - exists (evs ++ [AIMove client answer]). rewrite run_snoc. reflexivity.
  - exists (evs ++ [StatusEffect]). rewrite run_snoc. reflexivity.
Qed.

Lemma even_next (k : Z) : negb (Z.even k) = Z.even (k + 1).
Proof. rewrite Z.negb_even. rewrite <- Z.even_succ. reflexivity. Qed.

Lemma even_to_nat (k : Z) : 0 <= k -> Nat.even (Z.to_nat k) = Z.even k.
Proof.
  intros Hk. rewrite <- (Z2Nat.id k Hk) at 2.
  generalize (Z.to_nat k). clear. intros n.
  induction n as [|n IH].
  - reflexivity.
  - rewrite Nat2Z.inj_succ, Z.even_succ, <- Z.negb_even, <- IH.
    rewrite Nat.even_succ, <- Nat.negb_even. reflexivity.
Qed.

Lemma consistent_fresh (m : Mode) (st : string) (wl : option Line)
      (er : string) (ai : bool) :
  consistent (mkState createEmptyBoard true [initialEntry] 0 m st wl er ai).
Proof.
  unfold consistent. simpl. split; [lia|]. split; [reflexivity|]. split.
  - intros e. unfold idx. simpl. intros [= <-]. reflexivity.
  - intros i prev e _ He. discriminate He.
Qed.

(** An accepted move extends a consistent history by the entry of that
    move. *)
Lemma consistent_afterMove (row col : Z) (cm : bool) (s : State) :
  consistent s -> accepted row col cm s -> consistent (afterMove row col s).
Proof.
  intros (Hstep & Hturn & Hco & Hchain) _.
  assert (Hcut : slice0 (step s + 1) (history s)
                 = take (S (Z.to_nat (step s))) (history s)).
  { rewrite slice0_nonneg by lia. f_equal. lia. }
  assert (Hlen : length (take (S (Z.to_nat (step s))) (history s))
                 = S (Z.to_nat (step s))).
  { rewrite length_take. lia. }
  unfold consistent, afterMove. simpl. rewrite Hcut.
  rewrite length_app, Hlen. simpl.
  split; [lia|]. split.
  { match goal with
    | |- negb _ = Z.even ?x => replace x with (step s + 1) by lia
    end.
    rewrite Hturn. apply even_next. }
  split.
  { intros e He.
    pose proof (idx_last_app (take (S (Z.to_nat (step s))) (history s))
                             (moveEntry row col s)) as Hlast.
    rewrite length_app, Hlen in Hlast. simpl in Hlast.
    rewrite Hlast in He. injection He as <-. reflexivity. }
  intros i prev e Hprev He.
  destruct (decide (S i < S (Z.to_nat (step s)))%nat) as [Hlt|Hge].
  - rewrite lookup_app_l in Hprev by lia. rewrite lookup_app_l in He by lia.
    rewrite lookup_take_lt in Hprev by lia. rewrite lookup_take_lt in He by lia.
    apply (Hchain i prev e Hprev He).
  - assert (Hi : i = Z.to_nat (step s)).
    { apply lookup_lt_Some in He. rewrite length_app, Hlen in He.
      simpl in He. lia. }
    subst i.
    rewrite lookup_app_l in Hprev by lia.
    rewrite lookup_take_lt in Hprev by lia.
    rewrite lookup_app_r in He by lia. rewrite Hlen in He.
    replace (S (Z.to_nat (step s)) - S (Z.to_nat (step s)))%nat with 0%nat
      in He by lia.
    injection He as <-.
    assert (Hb : entry_board prev = board s).
    { apply Hco. unfold idx. case_decide; [exact Hprev | lia]. }
    exists row, col. simpl.
    rewrite even_to_nat by lia. rewrite <- Hturn, Hb. auto.
Qed.

Lemma consistent_jumpTo (k : Z) (s : State) :
  consistent s -> validIndex s k -> consistent (exec (jumpTo k) s).
Proof.
  intros (_ & _ & _ & Hchain) Hk.
  destruct (idx_lt_Some (history s) k Hk) as [e He].
  unfold exec. rewrite (jumpTo_Some k s e He).
  unfold consistent. simpl. split; [exact Hk|]. split; [reflexivity|].
  split; [|exact Hchain].
  intros e'. rewrite He. intros [= <-]. reflexivity.
Qed.

(** Every state of a session driven through the interface is
    consistent. *)
Lemma uiSession_consistent (client : bool) (s : State) :
  uiSession client s -> consistent s.
Proof.
  assert (Hpres : forall s st wl er ai,
             consistent s ->
             consistent (mkState (board s) (isXNext s) (history s) (step s)
                                 (mode s) st wl er ai))
    by (intros s0 st wl er ai Hs; exact Hs).
  induction 1 as [|s row col _ IH _ _|s k _ IH Hk|s _ IH|s v _ IH
                  |s answer _ IH _|s _ IH].
  - apply (consistent_fresh pvp EmptyString None EmptyString false).
  - apply (preserves_handleCellClick consistent consistent_afterMove), IH.
  - apply consistent_jumpTo; assumption.
  - rewrite handleReset_state. apply consistent_fresh.
  - rewrite handleModeChange_state. apply consistent_fresh.
  - apply (preserves_doAIMove consistent Hpres consistent_afterMove), IH.
  - apply (preserves_winnerEffect consistent Hpres), IH.
Qed.

(** X5.  In a session driven through the interface (clicks on the nine
    cells, jumps from the move list, reset, mode changes, computer's turns
    with any answer of the service), the current position is always a
    recorded one, the turn is X's exactly when the position is even, and the
    board shown is the board recorded at the current position. *)
Theorem ui_turn_follows_position (client : bool) (s : State)
        (Hui : uiSession client s) :
  validIndex s (step s)
  /\ isXNext s = Z.even (step s)
  /\ exists e, idx (history s) (step s) = Some e /\ entry_board e = board s.
Proof.
  destruct (uiSession_consistent client s Hui) as (Hstep & Hturn & Hco & _).
  split; [exact Hstep|]. split; [exact Hturn|].
  destruct (idx_lt_Some (history s) (step s) Hstep) as [e He].
  exists e. split; [exact He | apply Hco, He].
Qed.

Lemma ui_turn_follows_position_witness :
  isXNext (exec (doAIMove true (Resolved (Some [0; 5])))
                (exec (handleCellClick 1 1 false)
                      (exec (handleModeChange pvc) initialState)))
  = Z.even (step (exec (doAIMove true (Resolved (Some [0; 5])))
                       (exec (handleCellClick 1 1 false)
                             (exec (handleModeChange pvc) initialState)))).
Proof.
  refine (proj1 (proj2 (ui_turn_follows_position true _ _))).
  apply ui_computer; [|reflexivity].
  apply ui_click; [|lia|lia].
  apply ui_mode. apply ui_init.
Defined.

(** X6.  In such a session the history is a faithful log: every entry
    after the first records a move and a player, the player is X at the odd
    positions and O at the even ones, and its board is the board of the
    entry before it with that player's mark put at the recorded move. *)
Theorem ui_history_is_a_log (client : bool) (s : State)
        (Hui : uiSession client s) :
  forall i prev e,
    history s !! i = Some prev -> history s !! S i = Some e ->
    exists r c,
      entry_move e = Some (r, c)
      /\ entry_player e = Some (if Nat.even i then X else O)
      /\ entry_board e
         = placeMark (entry_board prev) r c (if Nat.even i then X else O).
Proof.
  destruct (uiSession_consistent client s Hui) as (_ & _ & _ & Hchain).
  exact Hchain.
Qed.

Lemma ui_history_is_a_log_witness :
  exists r c,
    entry_move
      {| entry_board := [[Some X; None; None]; [None; None; None]; [None; None; Some O]];
         entry_move := Some (2, 2); entry_player := Some O |}
    = Some (r, c)
    /\ entry_player
         {| entry_board := [[Some X; None; None]; [None; None; None]; [None; None; Some O]];
            entry_move := Some (2, 2); entry_player := Some O |}
       = Some O
    /\ entry_board
         {| entry_board := [[Some X; None; None]; [None; None; None]; [None; None; Some O]];
            entry_move := Some (2, 2); entry_player := Some O |}
       = placeMark
           (entry_board
              {| entry_board := [[Some X; None; None]; [None; None; None]; [None; None; None]];
                 entry_move := Some (0, 0); entry_player := Some X |})
           r c O.
Proof.
  refine (ui_history_is_a_log
            false
            (exec (handleCellClick 2 2 false)
                  (exec (jumpTo 1)
                        (exec (handleCellClick 0 1 false)
                              (exec (handleCellClick 0 0 false) initialState))))
            _ 1%nat _ _ _ _).
  - apply ui_click; [|lia|lia].
    apply ui_jump; [|vm_compute; split; [discriminate | reflexivity]].
    apply ui_click; [|lia|lia].
    apply ui_click; [|lia|lia].
    apply ui_init.
  - reflexivity.
  - reflexivity.
Defined.

(** *** The computer's turn while the game is on *)

Lemma aiTurn_inv (s : State) :
  aiTurn s = true ->
  mode s = pvc /\ calculateWinner (board s) = None /\ isXNext s = false.
Proof.
  unfold aiTurn. intros H.
  apply andb_true_iff in H as [H Hx]. apply andb_true_iff in H as [Hm Hw].
  split; [destruct (mode s); [discriminate Hm | reflexivity]|].
  split.
  - apply negb_true_iff, bool_decide_eq_false in Hw.
    destruct (calculateWinner (board s)); [|reflexivity].
    exfalso. apply Hw. eauto.
  - apply negb_true_iff in Hx. exact Hx.
Qed.

(** The computer's turn completes, clears the thinking flag and plays
    [playedMove]. *)
Lemma doAIMove_in_progress
      (openai : bool) (answer : Awaited (option (list Z))) (s : State) :
  wf_board (board s) -> calculateWinner (board s) = None ->
  exists m s',
    playedMove openai answer (board s) = Some m
    /\ doAIMove openai answer s = (Normal tt, s')
    /\ sameGame s' (afterMove (fst m) (snd m) s)
    /\ aiThinking s' = false.
Proof.
  intros Hwf Hw.
  assert (Hplay : forall r c (s1 : State),
             readCell (board s) r c = Some None -> board s1 = board s ->
             handleCellClick r c true s1 = (Normal tt, afterMove r c s1)).
  { intros r c s1 Hc Eb. apply handleCellClick_accepted, accepted_computer;
      rewrite Eb; assumption. }
  assert (Hfall : forall s1 : State,
             board s1 = board s ->
             exists m, findBestMove (board s) = Some m
                       /\ playFallback s1
                          = (Normal tt, afterMove (fst m) (snd m) s1)).
  { intros s1 Eb. rewrite <- Eb in Hwf, Hw.
    destruct (playFallback_in_progress s1 Hwf Hw) as (m & Hm & _ & Hp).
    rewrite Eb in Hm. eauto. }
  remember (playedMove openai answer (board s)) as pm eqn:Epm.
  assert (Hdone : forall m res s',
             res = (Normal tt, s') ->
             sameGame s' (afterMove (fst m) (snd m) s) ->
             aiThinking s' = false ->
             pm = Some m ->
             exists m s',
               pm = Some m
               /\ res = (Normal tt, s')
               /\ sameGame s' (afterMove (fst m) (snd m) s)
               /\ aiThinking s' = false)
    by (intros m res s' -> ? ? ?; exists m, s'; auto).
  unfold doAIMove, bind, get, tryCatch, setAiThinking, setError. simpl.
  destruct openai.
  - destruct answer as [|[[|r [|c [|x l]]]|]]; simpl;
      try (match goal with
           | |- context [playFallback ?s1] =>
               destruct (Hfall s1 eq_refl) as (m & Hm & ->)
           end;
           simpl; eapply (Hdone m);
           [reflexivity | repeat split; reflexivity | reflexivity
            | rewrite Epm; exact Hm]).
    destruct (readCell (board s) r c) as [[p|]|] eqn:Hread; simpl.
    + match goal with
      | |- context [playFallback ?s1] =>
          destruct (Hfall s1 eq_refl) as (m & Hm & ->)
      end.
      simpl. eapply (Hdone m);
        [reflexivity | repeat split; reflexivity | reflexivity
         | rewrite Epm; unfold playedMove; rewrite Hread; exact Hm].
    + rewrite (Hplay r c _ Hread) by reflexivity. simpl.
      eapply (Hdone (r, c));
        [reflexivity | repeat split; reflexivity | reflexivity
         | rewrite Epm; unfold playedMove; rewrite Hread; reflexivity].
    + match goal with
      | |- context [playFallback ?s1] =>
          destruct (Hfall s1 eq_refl) as (m & Hm & ->)
      end.
      simpl. eapply (Hdone m);
        [reflexivity | repeat split; reflexivity | reflexivity
         | rewrite Epm; unfold playedMove; rewrite Hread; exact Hm].
  - destruct (findBestMove_in_progress (board s) Hwf Hw)
      as ([i j] & Hm & (Hi & Hj & He)).
    simpl in Hi, Hj, He. rewrite Hm. simpl.
    rewrite (Hplay i j) by
        (try reflexivity; rewrite (readCell_wf _ _ _ Hwf Hi Hj), He; reflexivity).
    simpl. eapply (Hdone (i, j));
      [reflexivity | repeat split; reflexivity | reflexivity
       | rewrite Epm; unfold playedMove; destruct answer; exact Hm].
Qed.

(** The move played is a legal one unless it is the suggested pair. *)
Lemma playedMove_fallback (openai : bool) (answer : Awaited (option (list Z)))
      (b : Board) (m : Coord) :
  wf_board b -> calculateWinner b = None ->
  playedMove openai answer b = Some m ->
  (findBestMove b = Some m /\ legalMove b m)
  \/ exists r c, openai = true /\ answer = Resolved (Some [r; c])
                 /\ m = (r, c) /\ readCell b r c = Some None.
Proof.
  intros Hwf Hw Hm.
  destruct (findBestMove_in_progress b Hwf Hw) as (m' & Hm' & Hl).
  assert (Hfb : findBestMove b = Some m -> findBestMove b = Some m /\ legalMove b m).
  { intros E. split; [exact E|]. rewrite Hm' in E. injection E as <-. exact Hl. }
  unfold playedMove in Hm.
  destruct openai; [|left; apply Hfb, Hm].
  destruct answer as [|[[|r [|c [|x l]]]|]]; try (left; apply Hfb, Hm).
  destruct (readCell b r c) as [[p|]|] eqn:Hread; try (left; apply Hfb, Hm).
  injection Hm as <-. right. exists r, c. auto.
Qed.




(** X7.  When the effect of the computer's turn runs (mode pvc, game on,
    O to move) on a 3x3 board, [doAIMove] raises no error whatever the
    client and whatever the service answers; it appends exactly one entry,
    a move of O, after the entries up to the current position, shows the
    board of that entry, passes the turn to X and clears the thinking
    flag. *)
Theorem doAIMove_appends_one_entry
        (openai : bool) (answer : Awaited (option (list Z))) (s : State)
        (Hwf : wf_board (board s)) (Hturn : aiTurn s = true) :
  raised (doAIMove openai answer) s = false
  /\ aiThinking (exec (doAIMove openai answer) s) = false
  /\ isXNext (exec (doAIMove openai answer) s) = true
  /\ mode (exec (doAIMove openai answer) s) = pvc
  /\ exists r c,
      history (exec (doAIMove openai answer) s)
      = slice0 (step s + 1) (history s)
          ++ [ {| entry_board := placeMark (board s) r c O;
                  entry_move := Some (r, c);
                  entry_player := Some O |} ]
      /\ board (exec (doAIMove openai answer) s) = placeMark (board s) r c O
      /\ step (exec (doAIMove openai answer) s)
         = Z.of_nat (length (history (exec (doAIMove openai answer) s))) - 1.
Proof.
  destruct (aiTurn_inv s Hturn) as (Hmode & Hw & Hx).
  destruct (doAIMove_in_progress openai answer s Hwf Hw)
    as ([r c] & s' & _ & Hrun & (Hb & Hxn & Hh & Hst & Hm) & Hai).
  unfold raised, exec. rewrite Hrun. simpl in *.
  unfold moveEntry in Hh. rewrite Hx in Hb, Hxn, Hh. simpl in Hb, Hxn, Hh.
  split; [reflexivity|]. split; [exact Hai|]. split; [exact Hxn|].
  split; [congruence|].
  exists r, c. split; [exact Hh|]. split; [exact Hb|].
  rewrite Hst, Hh, !length_app. reflexivity.
Qed.

Lemma doAIMove_appends_one_entry_witness :
  isXNext (exec (doAIMove true (Resolved (Some [7; 7])))
                (run [ModeChange pvc; Click 1 1 false] initialState))
  = true.
Proof.
  refine (proj1 (proj2 (proj2 (doAIMove_appends_one_entry
                                 true (Resolved (Some [7; 7]))
                                 (run [ModeChange pvc; Click 1 1 false] initialState)
                                 _ _)))).
  - split; [reflexivity | repeat constructor].
  - reflexivity.
Defined.

(** X8.  In that situation the move played is the one of the fallback
    selector, a legal move whose cell then holds O, whenever no client is
    configured, the request fails, the answer is [null] or an array that
    has not two elements, or the suggested pair aims at a marked cell or at
    a row outside the grid. *)
Theorem doAIMove_falls_back
        (openai : bool) (answer : Awaited (option (list Z))) (s : State)
        (Hwf : wf_board (board s)) (Hturn : aiTurn s = true)
        (Hunusable :
           openai = false
           \/ answer = Rejected
           \/ answer = Resolved None
           \/ (exists l, answer = Resolved (Some l) /\ length l <> 2%nat)
           \/ (exists r c, answer = Resolved (Some [r; c])
                           /\ (cellAt (board s) r c <> None \/ ~ inRange r))) :
  exists m,
    findBestMove (board s) = Some m
    /\ legalMove (board s) m
    /\ sameGame (exec (doAIMove openai answer) s) (afterMove (fst m) (snd m) s)
    /\ cellAt (board (exec (doAIMove openai answer) s)) (fst m) (snd m) = Some O.
Proof.
  destruct (aiTurn_inv s Hturn) as (Hmode & Hw & Hx).
  destruct (doAIMove_in_progress openai answer s Hwf Hw)
    as (m & s' & Hpm & Hrun & Hsame & _).
  unfold exec. rewrite Hrun. simpl.
  destruct (playedMove_fallback openai answer (board s) m Hwf Hw Hpm)
    as [[Hfb Hl] | (r & c & -> & -> & -> & Hread)].
  - exists m. split; [exact Hfb|]. split; [exact Hl|]. split; [exact Hsame|].
    destruct Hsame as (Hb & _). rewrite Hb. simpl. rewrite Hx. simpl.
    destruct Hl as (Hi & Hj & _).
    apply cellAt_placeMark_target; assumption.
  - exfalso.
    destruct Hunusable as [E | [E | [E | [(l & E & Hl) | (r' & c' & E & Hbad)]]]];
      try discriminate E.
    + injection E as <-. apply Hl. reflexivity.
    + injection E as <- <-. destruct Hbad as [Hocc | Hrow].
      * apply Hocc. unfold cellAt. rewrite Hread. reflexivity.
      * apply Hrow. unfold readCell in Hread.
        destruct (idx (board s) r) as [rw|] eqn:Er; [|discriminate].
        apply idx_Some_lt in Er. destruct Hwf as [Hlen _].
        unfold inRange. lia.
Qed.

Lemma doAIMove_falls_back_witness :
  exists m,
    findBestMove (board (run [ModeChange pvc; Click 0 0 false] initialState)) = Some m
    /\ legalMove (board (run [ModeChange pvc; Click 0 0 false] initialState)) m
    /\ sameGame
         (exec (doAIMove true (Resolved (Some [0; 0])))
               (run [ModeChange pvc; Click 0 0 false] initialState))
         (afterMove (fst m) (snd m)
                    (run [ModeChange pvc; Click 0 0 false] initialState))
    /\ cellAt (board (exec (doAIMove true (Resolved (Some [0; 0])))
                           (run [ModeChange pvc; Click 0 0 false] initialState)))
              (fst m) (snd m)
       = Some O.
Proof.
  refine (doAIMove_falls_back
            true (Resolved (Some [0; 0]))
            (run [ModeChange pvc; Click 0 0 false] initialState) _ _ _).
  - split; [reflexivity | repeat constructor].
  - reflexivity.
  - right. right. right. right. exists 0, 0. split; [reflexivity|].
    left. vm_compute. discriminate.
Defined.

(** X9.  No handler raises in a session driven through the interface:
    not a click on one of the nine cells, not a jump to a recorded
    position, not the computer's turn when its effect runs, whatever the
    service answers, and not a reset, a mode change or the status
    effect. *)
Theorem ui_never_raises (client : bool) (s : State) (Hui : uiSession client s) :
  (forall row col,
      inRange row -> inRange col ->
      raised (handleCellClick row col false) s = false)
  /\ (forall k, validIndex s k -> raised (jumpTo k) s = false)
  /\ (aiTurn s = true ->
      forall answer, raised (doAIMove client answer) s = false)
  /\ raised handleReset s = false
  /\ (forall value, raised (handleModeChange value) s = false)
  /\ raised winnerEffect s = false.
Proof.
  destruct (reachable_wellShaped s (uiSession_reachable client s Hui))
    as [Hwf _].
  refine (conj _ (conj _ (conj _ (conj _ (conj _ _))))).
  - intros row col Hr Hc.
    destruct (raised (handleCellClick row col false) s) eqn:E; [|reflexivity].
    apply handleCellClick_raised in E as [_ E].
    rewrite (readCell_wf _ _ _ Hwf Hr Hc) in E. discriminate E.
  - intros k Hk. destruct (idx_lt_Some (history s) k Hk) as [e He].
    unfold raised. rewrite (jumpTo_Some k s e He). reflexivity.
  - intros Hturn answer. destruct (aiTurn_inv s Hturn) as (_ & Hw & _).
    destruct (doAIMove_in_progress client answer s Hwf Hw)
      as (m & s' & _ & Hrun & _).
    unfold raised. rewrite Hrun. reflexivity.
  - reflexivity.
  - intros value. reflexivity.
  - unfold raised, winnerEffect, bind, get.
    destruct (calculateWinner (board s)) as [[w l|]|]; reflexivity.
Qed.

Lemma ui_never_raises_witness :
  raised (doAIMove true (Resolved (Some [9; 9])))
         (exec (handleCellClick 0 0 false)
               (exec (handleModeChange pvc) initialState))
  = false.
Proof.
  refine (proj1 (proj2 (proj2 (ui_never_raises
                                 true
                                 (exec (handleCellClick 0 0 false)
                                       (exec (handleModeChange pvc) initialState))
                                 _)))
                _ (Resolved (Some [9; 9]))).
  - apply ui_click; [|lia|lia]. apply ui_mode. apply ui_init.
  - reflexivity.
Defined.

(** *** The number of marks *)

Lemma marks_cells (c00 c01 c02 c10 c11 c12 c20 c21 c22 : Cell) :
  marks [[c00; c01; c02]; [c10; c11; c12]; [c20; c21; c22]]
  = (mark1 c00 + mark1 c01 + mark1 c02 + mark1 c10 + mark1 c11 + mark1 c12
     + mark1 c20 + mark1 c21 + mark1 c22)%nat.
Proof.
  destruct c00, c01, c02, c10, c11, c12, c20, c21, c22; reflexivity.
Qed.

(** The board a move gives on a board of nine known cells. *)
Ltac compute_placeMark :=
  match goal with
  | |- context [placeMark ?b ?r ?c ?p] =>
      let t := eval vm_compute in (placeMark b r c p) in
      change (placeMark b r c p) with t
  end.

(** A legal move adds one mark. *)
Lemma marks_placeMark_legal (b : Board) (r c : Z) (p : Player) :
  wf_board b -> legalMove b (r, c) ->
  marks (placeMark b r c p) = S (marks b).
Proof.
  intros Hwf (Hr & Hc & He). simpl in Hr, Hc, He.
  destruct (wf_board_inv b Hwf) as (c00&c01&c02&c10&c11&c12&c20&c21&c22&->).
  destruct (inRange_cases r Hr) as [-> | [-> | ->]];
    destruct (inRange_cases c Hc) as [-> | [-> | ->]];
    unfold cellAt in He; simpl in He; subst;
    compute_placeMark; rewrite !marks_cells; unfold mark1; simpl; lia.
Qed.

(** Any move adds at most one mark. *)
Lemma marks_placeMark_le (b : Board) (r c : Z) (p : Player) :
  wf_board b -> (marks (placeMark b r c p) <= S (marks b))%nat.
Proof.
  intros Hwf.
  destruct (decide (inRange r /\ inRange c)) as [[Hr Hc]|Hout].
  - destruct (wf_board_inv b Hwf) as (c00&c01&c02&c10&c11&c12&c20&c21&c22&->).
    destruct (inRange_cases r Hr) as [-> | [-> | ->]];
      destruct (inRange_cases c Hc) as [-> | [-> | ->]];
      compute_placeMark; rewrite !marks_cells;
      repeat match goal with
             | |- context [mark1 ?x] => is_var x; destruct x
             end;
      unfold mark1; simpl; lia.
  - rewrite (placeMark_outside b r c p Hwf Hout). lia.
Qed.

(** What holds between every entry and the next still holds after an
    accepted move if it holds between the current entry and the new one. *)
Lemma chain_afterMove (R : nat -> Entry -> Entry -> Prop) (row col : Z) (s : State) :
  0 <= step s < Z.of_nat (length (history s)) ->
  (forall i prev e,
      history s !! i = Some prev -> history s !! S i = Some e -> R i prev e) ->
  (forall prev,
      history s !! Z.to_nat (step s) = Some prev ->
      R (Z.to_nat (step s)) prev (moveEntry row col s)) ->
  forall i prev e,
    history (afterMove row col s) !! i = Some prev ->
    history (afterMove row col s) !! S i = Some e ->
    R i prev e.
Proof.
  intros Hstep Hold Hnew i prev e. simpl.
  assert (Hcut : slice0 (step s + 1) (history s)
                 = take (S (Z.to_nat (step s))) (history s)).
  { rewrite slice0_nonneg by lia. f_equal. lia. }
  assert (Hlen : length (take (S (Z.to_nat (step s))) (history s))
                 = S (Z.to_nat (step s))).
  { rewrite length_take. lia. }
  rewrite Hcut. intros Hprev He.
  destruct (decide (S i < S (Z.to_nat (step s)))%nat) as [Hlt|Hge].
  - rewrite lookup_app_l in Hprev by lia. rewrite lookup_app_l in He by lia.
    rewrite lookup_take_lt in Hprev by lia. rewrite lookup_take_lt in He by lia.
    apply (Hold i prev e Hprev He).
  - assert (Hi : i = Z.to_nat (step s)).
    { apply lookup_lt_Some in He. rewrite length_app, Hlen in He.
      simpl in He. lia. }
    subst i.
    rewrite lookup_app_l in Hprev by lia.
    rewrite lookup_take_lt in Hprev by lia.
    rewrite lookup_app_r in He by lia. rewrite Hlen in He.
    replace (S (Z.to_nat (step s)) - S (Z.to_nat (step s)))%nat with 0%nat
      in He by lia.
    injection He as <-. apply Hnew, Hprev.
Qed.

Lemma legalLog_afterMove (row col : Z) (s : State) :
  consistent s -> legalLog s -> legalMove (board s) (row, col) ->
  legalLog (afterMove row col s).
Proof.
  intros (Hstep & _ & Hco & _) Hlog Hlegal i prev e r c Hprev He.
  revert r c.
  apply (chain_afterMove
           (fun _ prev e =>
              forall r c, entry_move e = Some (r, c) ->
                          legalMove (entry_board prev) (r, c))
           row col s Hstep) with (i := i); try assumption.
  - intros j p' e' Hp' He' r c Hm. apply (Hlog j p' e' r c Hp' He' Hm).
  - intros p' Hp' r c [= <- <-].
    rewrite (Hco p'); [exact Hlegal|].
    unfold idx. case_decide; [exact Hp' | lia].
Qed.

Lemma legalLog_same_history (s s' : State) :
  history s' = history s -> legalLog s -> legalLog s'.
Proof. unfold legalLog. intros ->. auto. Qed.

Lemma jumpTo_history (k : Z) (s : State) :
  history (exec (jumpTo k) s) = history s.
Proof.
  unfold exec. destruct (idx (history s) k) as [e|] eqn:He.
  - rewrite (jumpTo_Some k s e He). reflexivity.
  - rewrite (jumpTo_None k s He). reflexivity.
Qed.

Lemma winnerEffect_sameGame (s : State) : sameGame (exec winnerEffect s) s.
Proof.
  unfold exec, winnerEffect, bind, get.
  destruct (calculateWinner (board s)) as [[w l|]|]; repeat split; reflexivity.
Qed.

Lemma uiSession_rooted (client : bool) (s : State) :
  uiSession client s -> rooted s.
Proof.
  assert (Hpres : forall s st wl er ai,
             rooted s ->
             rooted (mkState (board s) (isXNext s) (history s) (step s)
                             (mode s) st wl er ai))
    by (intros s0 st wl er ai Hs; exact Hs).
  assert (Hmove : forall row col (cm : bool) s,
             rooted s -> accepted row col cm s -> rooted (afterMove row col s))
    by (intros row col cm s0 Hs _; apply rooted_afterMove, Hs).
  assert (Hfresh : forall m, rooted (exec (handleModeChange m) initialState)).
  { intros m. unfold rooted. simpl.
    split; [lia|]. split; [reflexivity | constructor]. }
  induction 1 as [|s row col _ IH _ _|s k _ IH Hk|s _ IH|s v _ IH
                  |s answer _ IH _|s _ IH].
  - apply rooted_initial.
  - apply (preserves_handleCellClick rooted Hmove), IH.
  - apply rooted_jumpTo; [lia | exact IH].
  - rewrite handleReset_state. apply (Hfresh (mode s)).
  - rewrite handleModeChange_state. apply (Hfresh v).
  - apply (preserves_doAIMove rooted Hpres Hmove), IH.
  - apply (preserves_winnerEffect rooted Hpres), IH.
Qed.

(** Without the client every recorded move was a legal one. *)
Lemma keyless_legalLog (s : State) : uiSession false s -> legalLog s.
Proof.
  assert (Hfresh : forall m st wl er ai,
             legalLog (mkState createEmptyBoard true [initialEntry] 0 m st wl er ai)).
  { intros m st wl er ai i prev e r c _ He. discriminate He. }
  intros Hui.
  induction Hui as [|s row col Hui IH Hr Hc|s k Hui IH Hk|s Hui IH|s v Hui IH
                    |s answer Hui IH Hturn|s Hui IH].
  - apply (Hfresh pvp EmptyString None EmptyString false).
  - destruct (accepted_dec row col false s) as [Hacc|Hno].
    + unfold exec. rewrite (handleCellClick_accepted _ _ _ _ Hacc). simpl.
      apply legalLog_afterMove;
        [apply (uiSession_consistent false s Hui) | exact IH |].
      split; [exact Hr|]. split; [exact Hc|].
      apply (accepted_cell_empty _ _ _ _ Hacc).
    + rewrite (handleCellClick_rejected _ _ _ _ Hno). exact IH.
  - apply (legalLog_same_history s); [apply jumpTo_history | exact IH].
  - rewrite handleReset_state. apply Hfresh.
  - rewrite handleModeChange_state. apply Hfresh.
  - destruct (reachable_wellShaped s (uiSession_reachable false s Hui))
      as [Hwf _].
    destruct (aiTurn_inv s Hturn) as (_ & Hw & _).
    destruct (doAIMove_in_progress false answer s Hwf Hw)
      as (m & s' & Hpm & Hrun & (_ & _ & Hh & _) & _).
    unfold exec. rewrite Hrun. simpl.
    apply (legalLog_same_history (afterMove (fst m) (snd m) s)); [exact Hh|].
    apply legalLog_afterMove;
      [apply (uiSession_consistent false s Hui) | exact IH |].
    destruct (playedMove_fallback false answer (board s) m Hwf Hw Hpm)
      as [[_ Hl] | (r & c & E & _)]; [|discriminate E].
    destruct m. exact Hl.
  - apply (legalLog_same_history s); [|exact IH].
    apply (winnerEffect_sameGame s).
Qed.

(** X10.  In a session driven through the interface the board recorded
    at position [i] of the history holds at most [i] marks; when no client
    is configured, so that the computer plays the fallback move, it holds
    exactly [i] marks: one mark per move. *)
Theorem ui_marks_count (client : bool) (s : State) (Hui : uiSession client s) :
  forall i e,
    history s !! i = Some e ->
    (marks (entry_board e) <= i)%nat
    /\ (client = false -> marks (entry_board e) = i).
Proof.
  destruct (uiSession_consistent client s Hui) as (_ & _ & _ & Hchain).
  destruct (uiSession_rooted client s Hui) as (_ & H0 & _).
  destruct (reachable_wellShaped s (uiSession_reachable client s Hui))
    as [_ Hwfs].
  rewrite Forall_forall in Hwfs.
  induction i as [|i IH]; intros e He.
  - rewrite H0 in He. injection He as <-. split; [|reflexivity].
    apply Nat.le_refl.
  - destruct (lookup_lt_is_Some_2 (history s) i) as [prev Hprev].
    { apply lookup_lt_Some in He. lia. }
    destruct (IH prev Hprev) as [Hle Heq].
    destruct (Hchain i prev e Hprev He) as (r & c & Hm & _ & Hb).
    assert (Hwf : wf_board (entry_board prev))
      by (apply Hwfs, list_elem_of_lookup; eauto).
    rewrite Hb. split.
    + pose proof (marks_placeMark_le (entry_board prev) r c
                                     (playerOf (Nat.even i)) Hwf). lia.
    + intros ->. rewrite marks_placeMark_legal; [rewrite Heq; reflexivity | exact Hwf |].
      apply (keyless_legalLog s Hui i prev e r c Hprev He Hm).
Qed.

Lemma ui_marks_count_witness :
  marks [[Some X; Some O; None]; [None; Some X; None]; [None; None; None]] = 3%nat.
Proof.
  refine (proj2 (ui_marks_count
                   false
                   (exec (doAIMove false Rejected)
                         (exec (handleCellClick 1 1 false)
                               (exec (doAIMove false Rejected)
                                     (exec (handleCellClick 0 0 false)
                                           (exec (handleModeChange pvc)
                                                 initialState)))))
                   _ 3%nat
                   {| entry_board :=
                        [[Some X; Some O; None]; [None; Some X; None]; [None; None; None]];
                      entry_move := Some (1, 1);
                      entry_player := Some X |}
                   _) eq_refl).
  - apply ui_computer; [|reflexivity].
    apply ui_click; [|lia|lia].
    apply ui_computer; [|reflexivity].
    apply ui_click; [|lia|lia].
    apply ui_mode. apply ui_init.
  - reflexivity.
Defined.

(** *** The grid *)

(** The [disabled] attribute of the button of a cell of the grid against
    the guard of the click. *)
Lemma button_guard (s : State) (r c : Z) :
  wf_board (board s) -> inRange r -> inRange c ->
  (truthy (cellAt (board s) r c)
   || bool_decide (is_Some (calculateWinner (board s))) = true ->
   exec (handleCellClick r c false) s = s)
  /\ (truthy (cellAt (board s) r c)
      || bool_decide (is_Some (calculateWinner (board s))) = false ->
      (isPvc (mode s) && negb (isXNext s) = false ->
       accepted r c false s)
      /\ (isPvc (mode s) && negb (isXNext s) = true ->
          exec (handleCellClick r c false) s = s)).
Proof.
  intros Hwf Hr Hc. pose proof (readCell_wf _ _ _ Hwf Hr Hc) as Hread.
  split.
  - intros Hd. apply handleCellClick_rejected. intros (Hw & Hcell & _).
    rewrite Hread in Hcell. injection Hcell as Hcell.
    rewrite Hcell, Hw in Hd. vm_compute in Hd. discriminate Hd.
  - intros Hd. apply orb_false_iff in Hd as [Hcell Hover].
    apply bool_decide_eq_false in Hover.
    assert (Hw : calculateWinner (board s) = None).
    { destruct (calculateWinner (board s)); [exfalso; eauto | reflexivity]. }
    assert (He : cellAt (board s) r c = None).
    { destruct (cellAt (board s) r c); [discriminate Hcell | reflexivity]. }
    split.
    + intros Hturn. split; [exact Hw|]. split.
      * rewrite Hread, He. reflexivity.
      * rewrite Hturn. reflexivity.
    + intros Hturn. apply handleCellClick_rejected. intros (_ & _ & Hm).
      rewrite Hturn in Hm. discriminate Hm.
Qed.

(** X11.  On a 3x3 board the grid is rendered as three rows of three
    buttons; the button at row [r] and column [c] shows the cell (r, c)
    and clicks on it.  A click on a disabled button (marked cell or game
    over) would change nothing; a click on an enabled button is accepted,
    except in mode pvc on O's turn, when the buttons stay enabled but the
    click changes nothing. *)
Theorem renderBoardGrid_buttons (s : State) (Hwf : wf_board (board s)) :
  length (renderBoardGrid s) = 3%nat
  /\ forall r c row b,
      renderBoardGrid s !! r = Some row -> row !! c = Some b ->
      length row = 3%nat
      /\ cb_row b = Z.of_nat r /\ cb_col b = Z.of_nat c
      /\ inRange (cb_row b) /\ inRange (cb_col b)
      /\ cb_cell b = cellAt (board s) (cb_row b) (cb_col b)
      /\ (cb_disabled b = true ->
          exec (handleCellClick (cb_row b) (cb_col b) false) s = s)
      /\ (cb_disabled b = false ->
          (isPvc (mode s) && negb (isXNext s) = false ->
           accepted (cb_row b) (cb_col b) false s)
          /\ (isPvc (mode s) && negb (isXNext s) = true ->
              exec (handleCellClick (cb_row b) (cb_col b) false) s = s)).
Proof.
  split.
  { unfold renderBoardGrid. rewrite length_imap. apply Hwf. }
  intros r c row b Hrow Hb.
  unfold renderBoardGrid in Hrow. rewrite list_lookup_imap in Hrow.
  apply fmap_Some in Hrow as (cells & Hcells & ->).
  rewrite list_lookup_imap in Hb.
  apply fmap_Some in Hb as (cell & Hcell & ->). simpl.
  assert (Hlen : length cells = 3%nat).
  { destruct Hwf as [_ Hrows]. rewrite Forall_forall in Hrows.
    apply Hrows, list_elem_of_lookup. eauto. }
  assert (Hr : inRange (Z.of_nat r)).
  { apply lookup_lt_Some in Hcells. destruct Hwf as [Hl _].
    unfold inRange. lia. }
  assert (Hc : inRange (Z.of_nat c)).
  { apply lookup_lt_Some in Hcell. unfold inRange. lia. }
  assert (He : cellAt (board s) (Z.of_nat r) (Z.of_nat c) = cell).
  { unfold cellAt, readCell, idx. case_decide; [|lia].
    rewrite Nat2Z.id, Hcells. case_decide; [|lia].
    rewrite Nat2Z.id, Hcell. reflexivity. }
  rewrite length_imap.
  split; [exact Hlen|]. split; [reflexivity|]. split; [reflexivity|].
  split; [exact Hr|]. split; [exact Hc|]. split; [symmetry; exact He|].
  rewrite <- He. apply (button_guard s _ _ Hwf Hr Hc).
Qed.

Lemma renderBoardGrid_buttons_witness :
  length (renderBoardGrid (run [Click 1 1 false] initialState)) = 3%nat.
Proof.
  refine (proj1 (renderBoardGrid_buttons (run [Click 1 1 false] initialState) _)).
  split; [reflexivity | repeat constructor].
Defined.

(** *** The status effect and the highlighted cells *)

Lemma calculateWinner_Winner_complete (b : Board) (p : Player) (l : Line) :
  calculateWinner b = Some (Winner p l) -> In l lines /\ lineComplete b p l.
Proof.
  unfold calculateWinner. intros H.
  assert (Hs : scanLines b lines = Some (Winner p l)).
  { destruct (scanLines b lines) as [w|]; [exact H|].
    destruct (forallb _ b); discriminate H. }
  apply scanLines_Winner in Hs as (pre & post & E & Hc & _).
  split; [|exact Hc]. rewrite E. apply in_or_app. right. left. reflexivity.
Qed.

Lemma isWinningCell_spec (s : State) (l : Line) (r c : Z) :
  winningLine s = Some l ->
  isWinningCell s r c = true <-> In (r, c) (lineCells l).
Proof.
  intros Hl. unfold isWinningCell. rewrite Hl.
  destruct l as [[k1 k2] k3]. unfold lineCells.
  rewrite existsb_exists. split.
  - intros ([x y] & Hin & Hf). apply andb_true_iff in Hf as [Hx Hy].
    apply bool_decide_eq_true in Hx, Hy. simpl in Hx, Hy. subst. exact Hin.
  - intros Hin. exists (r, c). split; [exact Hin|]. simpl.
    rewrite !bool_decide_eq_true_2 by reflexivity. reflexivity.
Qed.

(** X12.  The status effect leaves the game as it is.  After it, when a
    player has won, the status names that player, and the highlighted cells
    are exactly the three cells of the line [calculateWinner] reports, each
    holding the winner's mark; when the game is drawn or still on, no cell
    is highlighted and the status is "Draw!", respectively the announcement
    of the player to move. *)
Theorem winnerEffect_highlights (s : State) :
  sameGame (exec winnerEffect s) s
  /\ (forall p l,
         calculateWinner (board s) = Some (Winner p l) ->
         status (exec winnerEffect s) = ("Winner: " ++ playerName p)%string
         /\ forall r c,
             (isWinningCell (exec winnerEffect s) r c = true
              <-> In (r, c) (lineCells l))
             /\ (isWinningCell (exec winnerEffect s) r c = true ->
                 cellAt (board s) r c = Some p))
  /\ (calculateWinner (board s) = Some Draw ->
      status (exec winnerEffect s) = "Draw!"%string
      /\ forall r c, isWinningCell (exec winnerEffect s) r c = false)
  /\ (calculateWinner (board s) = None ->
      status (exec winnerEffect s)
      = ("Next: " ++ playerName (playerOf (isXNext s)))%string
      /\ forall r c, isWinningCell (exec winnerEffect s) r c = false).
Proof.
  split; [apply winnerEffect_sameGame|].
  unfold exec, winnerEffect, bind, get.
  refine (conj _ (conj _ _)).
  - intros p l Hw. rewrite Hw. simpl. split; [reflexivity|].
    intros r c.
    assert (Hspec : isWinningCell
                      (mkState (board s) (isXNext s) (history s) (step s)
                               (mode s) ("Winner: " ++ playerName p)%string
                               (Some l) (error s) (aiThinking s)) r c = true
                    <-> In (r, c) (lineCells l))
      by (apply isWinningCell_spec; reflexivity).
    split; [exact Hspec|]. intros Hin. apply Hspec in Hin.
    destruct (calculateWinner_Winner_complete _ _ _ Hw) as [_ Hc].
    destruct l as [[[r1 c1] [r2 c2]] [r3 c3]]. destruct Hc as (H1 & H2 & H3).
    simpl in Hin.
    destruct Hin as [[= <- <-] | [[= <- <-] | [[= <- <-] | []]]]; assumption.
  - intros Hw. rewrite Hw. simpl. split; reflexivity.
  - intros Hw. rewrite Hw. simpl. split; reflexivity.
Qed.

Lemma winnerEffect_highlights_witness :
  status (exec winnerEffect
               (run [Click 0 0 false; Click 1 1 false; Click 0 1 false;
                     Click 2 2 false; Click 0 2 false] initialState))
  = "Winner: X"%string
  /\ forall r c,
      (isWinningCell
         (exec winnerEffect
               (run [Click 0 0 false; Click 1 1 false; Click 0 1 false;
                     Click 2 2 false; Click 0 2 false] initialState)) r c = true
       <-> In (r, c) (lineCells ((0, 0), (0, 1), (0, 2))))
      /\ (isWinningCell
            (exec winnerEffect
                  (run [Click 0 0 false; Click 1 1 false; Click 0 1 false;
                        Click 2 2 false; Click 0 2 false] initialState)) r c = true ->
          cellAt (board (run [Click 0 0 false; Click 1 1 false; Click 0 1 false;
                              Click 2 2 false; Click 0 2 false] initialState)) r c
          = Some X).
Proof.
  refine (proj1 (proj2 (winnerEffect_highlights
                          (run [Click 0 0 false; Click 1 1 false; Click 0 1 false;
                                Click 2 2 false; Click 0 2 false] initialState)))
                X ((0, 0), (0, 1), (0, 2)) _).
  reflexivity.
Defined.

(** *** Navigation *)

(** X13.  In a session driven through the interface, jumping to a
    recorded position and then back to the position one came from restores
    the board, the turn, the history, the position and the mode; and a jump
    made after another jump gives the state the second jump alone gives, so
    that one can move back and forth in the history at will. *)
Theorem ui_jump_round_trip (client : bool) (s : State) (k : Z)
        (Hui : uiSession client s) (Hk : validIndex s k) :
  sameGame (exec (jumpTo (step s)) (exec (jumpTo k) s)) s
  /\ forall j, validIndex s j ->
               exec (jumpTo j) (exec (jumpTo k) s) = exec (jumpTo j) s.
Proof.
  destruct (uiSession_consistent client s Hui) as (Hstep & Hturn & Hco & _).
  destruct (idx_lt_Some (history s) k Hk) as [ek Hek].
  assert (Hjump : forall j ej,
             idx (history s) j = Some ej ->
             exec (jumpTo j) (exec (jumpTo k) s)
             = mkState (entry_board ej) (Z.even j) (history s) j (mode s)
                       (status s) None (error s) (aiThinking s)).
  { intros j ej Hej. unfold exec at 2. rewrite (jumpTo_Some k s ek Hek). simpl.
    unfold exec. rewrite (jumpTo_Some j _ ej) by exact Hej. reflexivity. }
  split.
  - destruct (idx_lt_Some (history s) (step s) Hstep) as [e He].
    rewrite (Hjump (step s) e He). unfold sameGame. simpl.
    rewrite (Hco e He), Hturn. auto.
  - intros j Hj. destruct (idx_lt_Some (history s) j Hj) as [ej Hej].
    rewrite (Hjump j ej Hej). unfold exec. rewrite (jumpTo_Some j s ej Hej).
    reflexivity.
Qed.

Lemma ui_jump_round_trip_witness :
  sameGame
    (exec (jumpTo (step (exec (handleCellClick 1 1 false)
                              (exec (handleCellClick 0 0 false) initialState))))
          (exec (jumpTo 0)
                (exec (handleCellClick 1 1 false)
                      (exec (handleCellClick 0 0 false) initialState))))
    (exec (handleCellClick 1 1 false)
          (exec (handleCellClick 0 0 false) initialState)).
Proof.
  refine (proj1 (ui_jump_round_trip
                   false
                   (exec (handleCellClick 1 1 false)
                         (exec (handleCellClick 0 0 false) initialState))
                   0 _ _)).
  - apply ui_click; [|lia|lia]. apply ui_click; [|lia|lia]. apply ui_init.
  - vm_compute. split; [discriminate | reflexivity].
Defined.

(** *** The fallback selector and the end of the game *)

(** X14.  On a 3x3 board the fallback selector returns [null] exactly
    when no cell is Empty; and while the game is on, as [calculateWinner]
    sees it, the selector has a move, which is a legal one: the computer's
    turn never finds the selector empty-handed. *)
Theorem findBestMove_none_iff_full (b : Board) (Hwf : wf_board b) :
  (findBestMove b = None <-> isFull b)
  /\ (calculateWinner b = None ->
      exists m, findBestMove b = Some m /\ legalMove b m).
Proof.
  split; [|apply findBestMove_in_progress, Hwf].
  destruct (wf_board_inv b Hwf) as (c00&c01&c02&c10&c11&c12&c20&c21&c22&->).
  assert (I0 : inRange 0) by (unfold inRange; lia).
  assert (I1 : inRange 1) by (unfold inRange; lia).
  assert (I2 : inRange 2) by (unfold inRange; lia).
  split.
  - intros Hnone r c Hr Hc.
    destruct c00; [|discriminate Hnone]. destruct c01; [|discriminate Hnone].
    destruct c02; [|discriminate Hnone]. destruct c10; [|discriminate Hnone].
    destruct c11; [|discriminate Hnone]. destruct c12; [|discriminate Hnone].
    destruct c20; [|discriminate Hnone]. destruct c21; [|discriminate Hnone].
    destruct c22; [|discriminate Hnone].
    destruct (inRange_cases r Hr) as [-> | [-> | ->]];
      destruct (inRange_cases c Hc) as [-> | [-> | ->]]; discriminate.
  - intros Hfull.
    pose proof (Hfull 0 0 I0 I0). pose proof (Hfull 0 1 I0 I1).
    pose proof (Hfull 0 2 I0 I2). pose proof (Hfull 1 0 I1 I0).
    pose proof (Hfull 1 1 I1 I1). pose proof (Hfull 1 2 I1 I2).
    pose proof (Hfull 2 0 I2 I0). pose proof (Hfull 2 1 I2 I1).
    pose proof (Hfull 2 2 I2 I2).
    destruct c00; [|exfalso; auto]. destruct c01; [|exfalso; auto].
    destruct c02; [|exfalso; auto]. destruct c10; [|exfalso; auto].
    destruct c11; [|exfalso; auto]. destruct c12; [|exfalso; auto].
    destruct c20; [|exfalso; auto]. destruct c21; [|exfalso; auto].
    destruct c22; [|exfalso; auto].
    reflexivity.
Qed.

Lemma findBestMove_none_iff_full_witness :
  findBestMove
    [[Some X; Some O; Some X]; [Some X; Some O; Some O]; [Some O; Some X; Some X]]
  = None
  <-> isFull
        [[Some X; Some O; Some X]; [Some X; Some O; Some O]; [Some O; Some X; Some X]].
Proof.
  refine (proj1 (findBestMove_none_iff_full _ _)).
  split; [reflexivity | repeat constructor].
Defined.

(** *** The board in the prompt *)

Lemma cellChar_inj (c1 c2 : Cell) : cellChar c1 = cellChar c2 -> c1 = c2.
Proof.
  destruct c1 as [[]|], c2 as [[]|]; intros H;
    try reflexivity; discriminate H.
Qed.

(** X15.  The text of a 3x3 board in the prompt has eleven characters,
    three rows of three separated by line feeds, and it determines the
    board: two 3x3 boards with the same text are the same board. *)
Theorem displayBoard_injective (b1 b2 : Board)
        (Hwf1 : wf_board b1) (Hwf2 : wf_board b2) :
  length (displayBoard b1) = 11%nat
  /\ (displayBoard b1 = displayBoard b2 -> b1 = b2).
Proof.
  destruct (wf_board_inv b1 Hwf1) as (a00&a01&a02&a10&a11&a12&a20&a21&a22&->).
  destruct (wf_board_inv b2 Hwf2) as (c00&c01&c02&c10&c11&c12&c20&c21&c22&->).
  split; [reflexivity|].
  unfold displayBoard. simpl. intros H.
  injection H as H00 H01 H02 H10 H11 H12 H20 H21 H22.
  apply cellChar_inj in H00, H01, H02, H10, H11, H12, H20, H21, H22.
  subst. reflexivity.
Qed.

Lemma displayBoard_injective_witness :
  length (displayBoard [[Some X; None; None]; [None; Some O; None]; [None; None; None]])
  = 11%nat.
Proof.
  refine (proj1 (displayBoard_injective
                   [[Some X; None; None]; [None; Some O; None]; [None; None; None]]
                   [[None; None; None]; [None; None; None]; [None; None; None]]
                   _ _)).
  - split; [reflexivity | repeat constructor].
  - split; [reflexivity | repeat constructor].
Defined.

(** *** What the adapter can return *)

(** What the search returns is a bracketed pair. *)
Lemma search_Some_pair (s m : Text) :
  search s = Some m -> exists d1 d2, bracketedPair m d1 d2.
Proof.
  induction s as [|c s IH]; rewrite search_unfold.
  - destruct (matchAt []) as [m'|] eqn:E; [|discriminate].
    intros [= <-]. destruct (matchAt_sound _ _ E) as (d1 & d2 & _ & _ & H).
    eauto.
  - destruct (matchAt (c :: s)) as [m'|] eqn:E; [|exact IH].
    intros [= <-]. destruct (matchAt_sound _ _ E) as (d1 & d2 & _ & _ & H).
    eauto.
Qed.

(** [JSON.parse] of a text that starts with a bracket gives an array or
    fails. *)
Lemma JSON_parse_bracket (r : Text) (v : JSON) :
  JSON_parse ("["%char :: r) = Some v -> exists vs, v = JArray vs.
Proof.
  unfold JSON_parse. rewrite skip_stops by reflexivity.
  replace (2 * length ("["%char :: r) + 2)%nat
    with (S (2 * length r + 3)) by (simpl; lia).
  rewrite parseValue_array.
  destruct (skip isJsonSpace r) as [|c1 r1]; [discriminate|].
  destruct (Ascii.eqb c1 "]").
  - simpl. destruct (skip isJsonSpace r1); [|discriminate].
    intros [= <-]. eauto.
  - destruct (parseElements (2 * length r + 3) (c1 :: r1)) as [[vs r2]|];
      simpl; [|discriminate].
    destruct (skip isJsonSpace r2); [|discriminate].
    intros [= <-]. eauto.
Qed.

(** X16.  Whatever the answer of the service, the parser returns [null]
    or an array, never another kind of value; and when the trimmed answer
    contains a bracketed pair of integers, the array it returns, if any,
    has exactly two elements, both numbers and neither negative. *)
Theorem parseContent_returns_array (content : Text) :
  (forall v, parseContent content = Some v -> exists vs, v = JArray vs)
  /\ ((exists pre m d1 d2,
          occurs (trim content) pre m /\ bracketedPair m d1 d2) ->
      forall v, parseContent content = Some v ->
                exists x y, v = JArray [JNumber x; JNumber y]
                            /\ nonNegative x /\ nonNegative y).
Proof.
  assert (Hpair : forall m v,
             search (trim content) = Some m -> JSON_parse m = Some v ->
             exists d1 d2,
               digitString d1 /\ digitString d2 /\ v = pairOf d1 d2).
  { intros m v Hs Hv. destruct (search_Some_pair _ _ Hs) as (d1 & d2 & Hm).
    rewrite (JSON_parse_pair m d1 d2 Hm) in Hv.
    destruct (canonical d1 && canonical d2); [|discriminate Hv].
    injection Hv as <-.
    destruct Hm as (_ & _ & _ & _ & _ & _ & _ & _ & D1 & D2 & _).
    exists d1, d2. auto. }
  split.
  - intros v. unfold parseContent.
    destruct (search (trim content)) as [m|] eqn:Hs.
    + intros Hv. destruct (Hpair m v eq_refl Hv) as (d1 & d2 & _ & _ & ->).
      unfold pairOf. eauto.
    + unfold startsWithBracket. destruct (trim content) as [|c r]; [discriminate|].
      destruct (Ascii.eqb c "[") eqn:E; [|discriminate].
      apply Ascii.eqb_eq in E. subst c. apply JSON_parse_bracket.
  - intros (pre & m0 & e1 & e2 & Hocc & Hm0) v. unfold parseContent.
    destruct (search (trim content)) as [m|] eqn:Hs.
    + intros Hv.
      destruct (Hpair m v eq_refl Hv) as (d1 & d2 & [_ D1] & [_ D2] & ->).
      exists (numberOf (digitsValue d1) 0), (numberOf (digitsValue d2) 0).
      split; [reflexivity|].
      split; apply numberOf_nonNegative, digitsValue_nonneg; assumption.
    + exfalso. apply search_None in Hs. apply (Hs pre m0 e1 e2 Hocc Hm0).
Qed.

Lemma parseContent_returns_array_witness :
  exists vs,
    JArray [JNumber (Nearest 5 (-1)); JBool true] = JArray vs.
Proof.
  refine (proj1 (parseContent_returns_array (text " [0.5, true] "))
                (JArray [JNumber (Nearest 5 (-1)); JBool true]) _).
  vm_compute. reflexivity.
Defined.

(** *** White space around the answer *)

Lemma skip_padding (p : ascii -> bool) (w s : Text) :
  Forall (fun c => p c = true) w -> skip p (w ++ s) = skip p s.
Proof.
  intros Hw. unfold skip. induction Hw as [|c w Hc _ IH]; simpl.
  - reflexivity.
  - rewrite Hc. destruct (span p (w ++ s)) as [a r]. exact IH.
Qed.

Lemma skip_all (p : ascii -> bool) (w : Text) :
  Forall (fun c => p c = true) w -> skip p w = [].
Proof.
  intros Hw. rewrite <- (app_nil_r w). rewrite (skip_padding p w [] Hw).
  reflexivity.
Qed.

Lemma skip_cases (p : ascii -> bool) (s : Text) :
  (Forall (fun c => p c = true) s /\ skip p s = [])
  \/ exists a c r, s = a ++ c :: r /\ Forall (fun c => p c = true) a
                   /\ p c = false /\ skip p s = c :: r.
Proof.
  unfold skip. destruct (span p s) as [a r] eqn:E.
  destruct (span_spec p s a r E) as (-> & Ha & Hr). simpl.
  destruct r as [|c r].
  - left. rewrite app_nil_r. auto.
  - right. exists a, c, r. auto.
Qed.

(** Trimming forgets white space added before and after. *)
Lemma trim_padding (w1 w2 s : Text) :
  Forall (fun c => isTrimSpace c = true) w1 ->
  Forall (fun c => isTrimSpace c = true) w2 ->
  trim (w1 ++ s ++ w2) = trim s.
Proof.
  intros H1 H2. unfold trim. rewrite (skip_padding isTrimSpace w1 _ H1).
  assert (Hrev : Forall (fun c => isTrimSpace c = true) (rev w2)).
  { apply Forall_forall. intros c Hc. rewrite Forall_forall in H2.
    apply H2. apply list_elem_of_In. apply in_rev.
    apply list_elem_of_In. exact Hc. }
  destruct (skip_cases isTrimSpace s)
    as [[Hall ->] | (a & c & r & -> & Ha & Hc & ->)].
  - rewrite (skip_all isTrimSpace (s ++ w2)) by (apply Forall_app; auto).
    reflexivity.
  - rewrite <- app_assoc. rewrite (skip_padding isTrimSpace a _ Ha).
    simpl app. rewrite (skip_stops isTrimSpace (c :: r ++ w2)) by exact Hc.
    change (c :: r ++ w2) with ((c :: r) ++ w2).
    rewrite rev_app_distr. rewrite (skip_padding isTrimSpace (rev w2) _ Hrev).
    reflexivity.
Qed.

(** X17.  Blanks, tabs and line breaks put before or after the answer
    of the service do not change what the parser returns. *)
Theorem parseContent_ignores_padding (w1 w2 content : Text)
        (H1 : Forall (fun c => isTrimSpace c = true) w1)
        (H2 : Forall (fun c => isTrimSpace c = true) w2) :
  parseContent (w1 ++ content ++ w2) = parseContent content.
Proof.
  unfold parseContent. rewrite (trim_padding w1 w2 content H1 H2). reflexivity.
Qed.

Lemma parseContent_ignores_padding_witness :
  parseContent (text "  " ++ text "[1,2,3]" ++ ["010"%char])
  = parseContent (text "[1,2,3]").
Proof.
  refine (parseContent_ignores_padding
            (text "  ") ["010"%char] (text "[1,2,3]") _ _).
  - repeat constructor.
  - repeat constructor.
Defined.

(** Without the client the board recorded at a position holds as many
    marks as the position says. *)
Lemma ui_marks_count_keyless (s : State) (Hui : uiSession false s) :
  forall i e, history s !! i = Some e -> marks (entry_board e) = i.
Proof.
  destruct (uiSession_consistent false s Hui) as (_ & _ & _ & Hchain).
  destruct (uiSession_rooted false s Hui) as (_ & H0 & _).
  destruct (reachable_wellShaped s (uiSession_reachable false s Hui))
    as [_ Hwfs].
  rewrite Forall_forall in Hwfs.
  induction i as [|i IH]; intros e He.
  - rewrite H0 in He. injection He as <-. reflexivity.
  - destruct (lookup_lt_is_Some_2 (history s) i) as [prev Hprev].
    { apply lookup_lt_Some in He. lia. }
    destruct (Hchain i prev e Hprev He) as (r & c & Hm & _ & Hb).
    assert (Hwf : wf_board (entry_board prev))
      by (apply Hwfs, list_elem_of_lookup; eauto).
    rewrite Hb, marks_placeMark_legal;
      [rewrite (IH prev Hprev); reflexivity | exact Hwf |].
    apply (keyless_legalLog s Hui i prev e r c Hprev He Hm).
Qed.

(** *** The length of a game *)

Lemma marks_le_9 (b : Board) : wf_board b -> (marks b <= 9)%nat.
Proof.
  intros Hwf.
  destruct (wf_board_inv b Hwf) as (c00&c01&c02&c10&c11&c12&c20&c21&c22&->).
  rewrite marks_cells. unfold mark1.
  destruct (truthy c00), (truthy c01), (truthy c02), (truthy c10),
    (truthy c11), (truthy c12), (truthy c20), (truthy c21), (truthy c22);
    simpl; lia.
Qed.

(** X18.  When no client is configured, a session driven through the
    interface never records more than nine moves: the history has at most
    ten entries and the current position is at most 9. *)
Theorem ui_keyless_game_length (s : State) (Hui : uiSession false s) :
  (length (history s) <= 10)%nat /\ 0 <= step s <= 9.
Proof.
  destruct (reachable_wellShaped s (uiSession_reachable false s Hui))
    as [_ Hwfs].
  rewrite Forall_forall in Hwfs.
  destruct (uiSession_consistent false s Hui) as (Hstep & _).
  assert (Hlen : (length (history s) <= 10)%nat).
  { destruct (decide (length (history s) <= 10)%nat) as [Hle|Hgt]; [exact Hle|].
    exfalso.
    destruct (lookup_lt_is_Some_2 (history s) 10) as [e He]; [lia|].
    assert (Hwf : wf_board (entry_board e))
      by (apply Hwfs, list_elem_of_lookup; eauto).
    assert (Hm : marks (entry_board e) = 10%nat).
    { pose proof (ui_marks_count_keyless s Hui 10%nat e He) as Hm. exact Hm. }
    pose proof (marks_le_9 (entry_board e) Hwf). lia. }
  split; [exact Hlen | lia].
Qed.

Lemma ui_keyless_game_length_witness :
  (length (history (exec (handleCellClick 2 2 false)
                         (exec (handleCellClick 0 0 false) initialState)))
   <= 10)%nat.
Proof.
  refine (proj1 (ui_keyless_game_length
                   (exec (handleCellClick 2 2 false)
                         (exec (handleCellClick 0 0 false) initialState)) _)).
  apply ui_click; [|lia|lia]. apply ui_click; [|lia|lia]. apply ui_init.
Defined.

(** *** The two versions of the computer's turn *)

(** X19.  With no client configured, the computer's turn of the version
    with the OpenAI opponent does to the game what the timer of the
    version without it does: the same board, turn, history, position and
    mode result, in every state and whatever the service would have
    answered, and the one raises exactly when the other does. *)
Theorem doAIMove_keyless_is_timerMove
        (answer : Awaited (option (list Z))) (s : State) :
  sameGame (exec (doAIMove false answer) s) (exec timerMove s)
  /\ raised (doAIMove false answer) s = raised timerMove s.
Proof.
  unfold exec, raised, doAIMove, timerMove, bind, get, setAiThinking, setError.
  simpl.
  destruct (findBestMove (board s)) as [[i j]|]; simpl;
    [|split; [repeat split|]; reflexivity].
  destruct (accepted_dec i j true s) as [Hacc|Hno].
  - rewrite (handleCellClick_accepted i j true s Hacc).
    rewrite (handleCellClick_accepted i j true _) by exact Hacc.
    simpl. split; [repeat split|]; reflexivity.
  - pose proof (handleCellClick_rejected i j true s Hno) as E1.
    pose proof (handleCellClick_rejected
                  i j true
                  (mkState (board s) (isXNext s) (history s) (step s) (mode s)
                           (status s) (winningLine s) EmptyString true) Hno) as E2.
    assert (R : forall s0 : State,
               raised (handleCellClick i j true) s0 = true <->
               calculateWinner (board s0) = None /\ readCell (board s0) i j = None)
      by (intros s0; apply handleCellClick_raised).
    unfold exec, raised in *.
    pose proof (R s) as R1.
    pose proof (R (mkState (board s) (isXNext s) (history s) (step s) (mode s)
                           (status s) (winningLine s) EmptyString true)) as R2.
    simpl in R2.
    destruct (handleCellClick i j true s) as [[[]|] s1];
      destruct (handleCellClick
                  i j true
                  (mkState (board s) (isXNext s) (history s) (step s) (mode s)
                           (status s) (winningLine s) EmptyString true))
        as [[[]|] s2];
      simpl in *; subst;
      try (split; [repeat split|]; reflexivity);
      exfalso.
    + assert (H : false = true) by (apply R1, R2; reflexivity). discriminate H.
    + assert (H : false = true) by (apply R2, R1; reflexivity). discriminate H.
Qed.
